(** * siteCrawler: a shallow embedding of the recursive site crawler

    The development follows [src/siteCrawler.py].  Python strings are
    lists of ASCII characters; the functions of [urllib.parse] that
    [normalize_url] calls are transcribed from CPython 3.11
    ([Lib/urllib/parse.py]) for ASCII input, where [str.lower] only
    touches [A-Z] and [_checknetloc] returns at once.  The validation of a
    bracketed host ([_check_bracketed_netloc], which asks the [ipaddress]
    module) is a parameter of the model. *)

From Stdlib Require Import Ascii String Lia.
From stdpp Require Import base option list gmap strings.

Local Open Scope char_scope.

Abbreviation str := (list ascii).

(** ** Python string primitives *)

Definition py (s : string) : str := list_ascii_of_string s.

Definition code (c : ascii) : nat := nat_of_ascii c.

Definition is_upper (c : ascii) : bool :=
  Nat.leb 65 (code c) && Nat.leb (code c) 90.

Definition is_lower (c : ascii) : bool :=
  Nat.leb 97 (code c) && Nat.leb (code c) 122.

Definition is_digit (c : ascii) : bool :=
  Nat.leb 48 (code c) && Nat.leb (code c) 57.

(* c.isascii() and c.isalpha() *)
Definition is_alpha (c : ascii) : bool := is_upper c || is_lower c.

Definition lower_char (c : ascii) : ascii :=
  if is_upper c then ascii_of_nat (code c + 32) else c.

(* s.lower() *)
Definition lower (s : str) : str := map lower_char s.

(* c in chars *)
Definition mem (c : ascii) (s : str) : bool := existsb (Ascii.eqb c) s.

Definition str_eqb (a b : str) : bool := bool_decide (a = b).

(* s.startswith(p) *)
Fixpoint startswith (p s : str) : bool :=
  match p, s with
  | [], _ => true
  | _ :: _, [] => false
  | a :: p', b :: s' => Ascii.eqb a b && startswith p' s'
  end.

(* s.endswith(p) *)
Definition endswith (p s : str) : bool := startswith (rev p) (rev s).

(* s.lstrip(chars), with the character class as a predicate *)
Fixpoint lstrip (p : ascii -> bool) (s : str) : str :=
  match s with
  | [] => []
  | c :: t => if p c then lstrip p t else s
  end.

(* s.rstrip(chars), with the character class as a predicate *)
Fixpoint rstrip (p : ascii -> bool) (s : str) : str :=
  match s with
  | [] => []
  | x :: t =>
      match rstrip p t with
      | [] => if p x then [] else [x]
      | t' => x :: t'
      end
  end.

Definition is_slash (c : ascii) : bool := Ascii.eqb c "/".

(* i = s.find(c); (s[:i], s[i+1:]) when i >= 0 *)
Fixpoint split_first (c : ascii) (s : str) : option (str * str) :=
  match s with
  | [] => None
  | x :: t =>
      if Ascii.eqb x c then Some ([], t)
      else match split_first c t with
           | Some (a, b) => Some (x :: a, b)
           | None => None
           end
  end.

(* i = s.rfind(c); (s[:i], s[i:]) when i >= 0 *)
Fixpoint split_last (c : ascii) (s : str) : option (str * str) :=
  match s with
  | [] => None
  | x :: t =>
      match split_last c t with
      | Some (a, b) => Some (x :: a, b)
      | None => if Ascii.eqb x c then Some ([], s) else None
      end
  end.

(* the longest prefix free of the characters p, and the rest *)
Fixpoint span_until (p : ascii -> bool) (s : str) : str * str :=
  match s with
  | [] => ([], [])
  | c :: t =>
      if p c then ([], s)
      else let '(a, b) := span_until p t in (c :: a, b)
  end.

(** ** urllib.parse *)

Definition uses_netloc : list str :=
  map py ["" ; "ftp" ; "http" ; "gopher" ; "nntp" ; "telnet" ; "imap" ; "wais" ;
         "file" ; "mms" ; "https" ; "shttp" ; "snews" ; "prospero" ; "rtsp" ;
         "rtspu" ; "rsync" ; "svn" ; "svn+ssh" ; "sftp" ; "nfs" ; "git" ;
         "git+ssh" ; "ws" ; "wss"]%string.

Definition uses_params : list str :=
  map py ["" ; "ftp" ; "hdl" ; "prospero" ; "http" ; "imap" ; "https" ;
         "shttp" ; "rtsp" ; "rtspu" ; "sip" ; "sips" ; "mms" ; "sftp" ;
         "tel"]%string.

Definition in_list (s : str) (l : list str) : bool := existsb (str_eqb s) l.

(* scheme_chars: letters, digits and "+-." *)
Definition is_scheme_char (c : ascii) : bool :=
  is_alpha c || is_digit c || mem c (py "+-.").

(* _WHATWG_C0_CONTROL_OR_SPACE: the code points 0 .. 32 *)
Definition is_c0_or_space (c : ascii) : bool := Nat.leb (code c) 32.

(* _UNSAFE_URL_BYTES_TO_REMOVE = ['\t', '\r', '\n'] *)
Definition is_unsafe (c : ascii) : bool :=
  Nat.eqb (code c) 9 || Nat.eqb (code c) 13 || Nat.eqb (code c) 10.

Definition remove_unsafe (s : str) : str :=
  List.filter (fun c => negb (is_unsafe c)) s.

Record SplitResult := mkSplit {
  s_scheme : str; s_netloc : str; s_path : str;
  s_query : str; s_fragment : str }.

Record ParseResult := mkParse {
  scheme : str; netloc : str; path : str;
  params : str; query : str; fragment : str }.

(* the scheme test at the head of urlsplit *)
Definition split_scheme (url : str) : str * str :=
  match split_first ":" url with
  | Some (c :: pre, rest) =>
      if is_alpha c && forallb is_scheme_char (c :: pre)
      then (lower (c :: pre), rest)
      else ([], url)
  | _ => ([], url)
  end.

Definition is_delim (c : ascii) : bool := mem c (py "/?#").

(* _splitnetloc(url, 2) *)
Definition splitnetloc (url : str) : str * str :=
  span_until is_delim (drop 2 url).

(* url.split(c, 1) when c occurs, else (url, "") *)
Definition split_on (c : ascii) (url : str) : str * str :=
  match split_first c url with
  | Some (a, b) => (a, b)
  | None => (url, [])
  end.

(* _splitparams *)
Definition splitparams (url : str) : str * str :=
  match split_last "/" url with
  | Some (dir, seg) =>
      match split_first ";" seg with
      | Some (a, b) => (dir ++ a, b)
      | None => (url, [])
      end
  | None =>
      match split_first ";" url with
      | Some (a, b) => (a, b)
      | None => (removelast url, url)
      end
  end.

Section Urllib.

(** [_check_bracketed_netloc]: [true] when it returns, [false] when it
    raises ValueError. *)
Variable check_bracketed_netloc : str -> bool.

(* the two IPv6 tests of urlsplit; false stands for ValueError *)
Definition netloc_ok (n : str) : bool :=
  let lb := mem "[" n in
  let rb := mem "]" n in
  if xorb lb rb then false
  else if lb && rb then check_bracketed_netloc n
  else true.

(* urlsplit(url); None stands for ValueError *)
Definition urlsplit (url : str) : option SplitResult :=
  let url := remove_unsafe (lstrip is_c0_or_space url) in
  let '(sch, url) := split_scheme url in
  let '(net, url) :=
    if startswith (py "//") url then splitnetloc url else ([], url) in
  if netloc_ok net then
    let '(url, frag) := split_on "#" url in
    let '(url, qry) := split_on "?" url in
    Some (mkSplit sch net url qry frag)
  else None.

(* urlparse(url) *)
Definition urlparse (url : str) : option ParseResult :=
  match urlsplit url with
  | None => None
  | Some r =>
      let '(url, prm) :=
        if in_list (s_scheme r) uses_params && mem ";" (s_path r)
        then splitparams (s_path r)
        else (s_path r, []) in
      Some (mkParse (s_scheme r) (s_netloc r) url prm (s_query r) (s_fragment r))
  end.

(* urlunsplit((scheme, netloc, url, query, fragment)) *)
Definition urlunsplit (r : SplitResult) : str :=
  let url := s_path r in
  let url :=
    if negb (str_eqb (s_netloc r) [])
       || (negb (str_eqb (s_scheme r) []) && in_list (s_scheme r) uses_netloc
           && negb (startswith (py "//") url))
    then
      let url :=
        if negb (str_eqb url []) && negb (startswith (py "/") url)
        then "/" :: url else url in
      py "//" ++ s_netloc r ++ url
    else url in
  let url :=
    if negb (str_eqb (s_scheme r) []) then s_scheme r ++ ":" :: url else url in
  let url :=
    if negb (str_eqb (s_query r) []) then url ++ "?" :: s_query r else url in
  if negb (str_eqb (s_fragment r) []) then url ++ "#" :: s_fragment r else url.

(* urlunparse((scheme, netloc, url, params, query, fragment)) *)
Definition urlunparse (p : ParseResult) : str :=
  let url :=
    if negb (str_eqb (params p) []) then path p ++ ";" :: params p
    else path p in
  urlunsplit (mkSplit (scheme p) (netloc p) url (query p) (fragment p)).

(* urldefrag(url): the pair (defragmented url, fragment) *)
Definition urldefrag (url : str) : option (str * str) :=
  if mem "#" url then
    match urlparse url with
    | None => None
    | Some p =>
        Some (urlunparse (mkParse (scheme p) (netloc p) (path p) (params p)
                                  (query p) []),
              fragment p)
    end
  else Some (url, []).

(** ** normalize_url (siteCrawler.py, lines 102-109) *)

Definition normalize_url (url : str) : option str :=
  match urldefrag url with
  | None => None
  | Some (url, _) =>
      match urlparse url with
      | None => None
      | Some parsed =>
          let path' := rstrip is_slash (path parsed) in
          Some (urlunparse
                  (mkParse (lower (scheme parsed)) (lower (netloc parsed))
                           (lower path') (params parsed) (query parsed)
                           (fragment parsed)))
      end
  end.

End Urllib.

(** ** More string primitives *)

(* sub in s *)
Fixpoint contains (sub s : str) : bool :=
  startswith sub s ||
  match s with
  | [] => false
  | _ :: t => contains sub t
  end.

(* s.split(sep) for a non-empty sep; [skip] counts the characters of a
   separator that was matched and is still to be passed over *)
Fixpoint split_sub_aux (sep : str) (skip : nat) (cur s : str) : list str :=
  match s with
  | [] => [rev cur]
  | c :: t =>
      match skip with
      | Datatypes.S k => split_sub_aux sep k cur t
      | O =>
          if startswith sep s
          then rev cur :: split_sub_aux sep (length sep - 1) [] t
          else split_sub_aux sep 0 (c :: cur) t
      end
  end.

Definition split_sub (sep s : str) : list str := split_sub_aux sep 0 [] s.

(* sep.join(pieces) *)
Fixpoint join (sep : str) (pieces : list str) : str :=
  match pieces with
  | [] => []
  | [p] => p
  | p :: rest => p ++ sep ++ join sep rest
  end.

(* s.replace(old, new) for a non-empty old *)
Definition replace (old new s : str) : str := join new (split_sub old s).

(* s.strip(chars) *)
Definition strip (p : ascii -> bool) (s : str) : str := rstrip p (lstrip p s).

(* os.path.basename (POSIX) *)
Definition basename (p : str) : str :=
  match split_last "/" p with
  | Some (_, seg) => drop 1 seg
  | None => p
  end.

(* os.path.join(a, b) (POSIX) *)
Definition path_join (a b : str) : str :=
  if startswith (py "/") b then b
  else if str_eqb a [] || endswith (py "/") a then a ++ b
  else a ++ "/" :: b.

(* safe_filename: re.sub(r'[^a-zA-Z0-9_-]', '_', url) *)
Definition is_safe_char (c : ascii) : bool :=
  is_alpha c || is_digit c || mem c (py "_-").

Definition safe_filename (url : str) : str :=
  map (fun c => if is_safe_char c then c else "_") url.

(** ** The crawler's collaborators *)

Record ProxyConfig := mkProxy { server : str; username : str; password : str }.

(* what crawler.arun returns *)
Record CrawlResult := mkResult {
  r_url : str;
  r_success : bool;
  r_markdown : str;            (* "" also stands for None *)
  r_links : list str;          (* the href of each entry of links["internal"] *)
  r_error_message : str }.

Inductive ArunOutcome := ArunRaises | ArunReturns (r : CrawlResult).

(* one call of resp.content.read(1024) *)
Inductive ReadOutcome := ReadRaises | ReadChunk (b : str).

Record Response := mkResponse {
  content_type : option str;
  content_disposition : option str;
  body : list ReadOutcome }.

Inductive GetOutcome := GetRaises | GetReturns (resp : Response).

(** The environment of a run: the configuration and, for every call of a
    collaborator, what the call answers.  The answers are indexed by the
    number of earlier calls of the same kind. *)
Record Env := mkEnv {
  bracket_check : str -> bool;
  USE_PROXIES : bool;
  proxies : list ProxyConfig;
  random_choice : nat -> nat;
  http_get : nat -> str -> option str -> GetOutcome;
  arun : nat -> str -> option ProxyConfig -> ArunOutcome;
  io_ok : nat -> bool }.

Definition MAX_RETRIES : nat := 5.

Inductive LogLine :=
| LogCheckError (url : str)
| LogDownloaded (url filename : str)
| LogDownloadError (url : str)
| LogAiohttpError (url : str)
| LogRetryFailed (attempt : nat) (proxy : option ProxyConfig)
| LogRetryError (attempt : nat) (proxy : option ProxyConfig)
| LogGiveUp (url : str)
| LogDepth (depth : nat)
| LogOk (url : str) (markdown_length : nat)
| LogError (url message : str).

Inductive Event :=
| EvProxy (p : option ProxyConfig)                 (* get_next_proxy() *)
| EvGet (url : str) (proxy : option str) (timeout : nat)  (* session.get *)
| EvRead (o : ReadOutcome)                         (* resp.content.read *)
| EvRender (url : str) (proxy : option ProxyConfig)(* crawler.arun *)
| EvSleep (seconds : nat)
| EvMakedirs (dir : str)
| EvOpen (file mode : str)
| EvWrite (file data : str)
| EvAppend (file data : str)                       (* write in mode "a" *)
| EvLog (l : LogLine)                              (* print *)
| EvWave (urls : list str)                         (* the tasks of a depth *)
| EvFolded (visited next : gset str).              (* a depth is folded *)

Inductive Exn := ValueError | IndexError | OSError | ClientError | RenderError.

Record World := mkWorld {
  trace : list Event;
  n_rand : nat; n_get : nat; n_arun : nat; n_io : nat;
  files : gmap str str }.

Definition world0 : World := mkWorld [] 0 0 0 0 ∅.

(** ** State and exceptions *)

Inductive Res (A : Type) := Ok (a : A) | Raised (e : Exn).
Arguments Ok {A} a.
Arguments Raised {A} e.

Definition M (A : Type) : Type := World -> Res A * World.

Definition ret {A} (a : A) : M A := fun w => (Ok a, w).

Definition raise {A} (e : Exn) : M A := fun w => (Raised e, w).

Definition bind {A B} (m : M A) (k : A -> M B) : M B :=
  fun w => match m w with
           | (Ok a, w') => k a w'
           | (Raised e, w') => (Raised e, w')
           end.

(* try: m  except Exception: h *)
Definition try_except {A} (m : M A) (h : Exn -> M A) : M A :=
  fun w => match m w with
           | (Ok a, w') => (Ok a, w')
           | (Raised e, w') => h e w'
           end.

Notation "'let*' x ':=' m 'in' k" := (bind m (fun x => k))
  (at level 10, x pattern, m at level 100, k at level 200).
Notation "m ';;' k" := (bind m (fun _ => k))
  (at level 100, k at level 200, right associativity).

Definition emit (e : Event) : M unit :=
  fun w => (Ok tt, mkWorld (trace w ++ [e]) (n_rand w) (n_get w) (n_arun w)
                           (n_io w) (files w)).

Definition log (l : LogLine) : M unit := emit (EvLog l).

(* lift a computation that raises ValueError *)
Definition of_option {A} (o : option A) : M A :=
  match o with
  | Some a => ret a
  | None => raise ValueError
  end.

Fixpoint mapM {A B} (f : A -> M B) (l : list A) : M (list B) :=
  match l with
  | [] => ret []
  | a :: t => let* b := f a in let* bs := mapM f t in ret (b :: bs)
  end.

Fixpoint forM_ {A} (l : list A) (f : A -> M unit) : M unit :=
  match l with
  | [] => ret tt
  | a :: t => f a ;; forM_ t f
  end.

(** ** The operations of siteCrawler.py *)

Definition DOWNLOAD_EXTENSIONS : list str :=
  map py [".pdf" ; ".doc" ; ".docx" ; ".txt"]%string.

Definition DOWNLOAD_MIMES : list str :=
  map py ["application/pdf" ; "application/msword" ; "application/vnd" ;
          "text/plain"]%string.

Definition header (h : option str) : str := default [] h.

Section Crawler.

Variable env : Env.

Definition normalize : str -> option str := normalize_url (bracket_check env).

(* a filesystem call: it fails when the environment says so *)
Definition io (e : Event) (effect : gmap str str -> gmap str str) : M unit :=
  fun w =>
    if io_ok env (n_io w)
    then (Ok tt, mkWorld (trace w ++ [e]) (n_rand w) (n_get w) (n_arun w)
                         (Datatypes.S (n_io w)) (effect (files w)))
    else (Raised OSError, mkWorld (trace w) (n_rand w) (n_get w) (n_arun w)
                                  (Datatypes.S (n_io w)) (files w)).

Definition makedirs (dir : str) : M unit := io (EvMakedirs dir) id.

(* open(file, "w") and open(file, "wb") truncate; open(file, "a") creates *)
Definition open_write (file mode : str) : M unit :=
  io (EvOpen file mode) (fun fs => <[file := []]> fs).

Definition open_append (file : str) : M unit :=
  io (EvOpen file (py "a")) (fun fs => <[file := default [] (fs !! file)]> fs).

Definition write (file data : str) : M unit :=
  io (EvWrite file data)
     (fun fs => <[file := default [] (fs !! file) ++ data]> fs).

(* a write through a handle that open_append returned *)
Definition append (file data : str) : M unit :=
  io (EvAppend file data)
     (fun fs => <[file := default [] (fs !! file) ++ data]> fs).

(* session.get(url, proxy=proxy, timeout=timeout) *)
Definition session_get (url : str) (proxy : option str) (timeout : nat)
  : M Response :=
  fun w =>
    let w' := mkWorld (trace w ++ [EvGet url proxy timeout]) (n_rand w)
                      (Datatypes.S (n_get w)) (n_arun w) (n_io w) (files w) in
    match http_get env (n_get w) url proxy with
    | GetReturns resp => (Ok resp, w')
    | GetRaises => (Raised ClientError, w')
    end.

(* crawler.arun(url=url, config=run_config) *)
Definition crawler_arun (url : str) (proxy : option ProxyConfig)
  : M CrawlResult :=
  fun w =>
    let w' := mkWorld (trace w ++ [EvRender url proxy]) (n_rand w) (n_get w)
                      (Datatypes.S (n_arun w)) (n_io w) (files w) in
    match arun env (n_arun w) url proxy with
    | ArunReturns r => (Ok r, w')
    | ArunRaises => (Raised RenderError, w')
    end.

Definition sleep (seconds : nat) : M unit := emit (EvSleep seconds).

(* lines 88-91 *)
Definition get_next_proxy : M (option ProxyConfig) :=
  fun w =>
    if negb (USE_PROXIES env) || bool_decide (proxies env = [])
    then (Ok None, mkWorld (trace w ++ [EvProxy None]) (n_rand w) (n_get w)
                           (n_arun w) (n_io w) (files w))
    else
      let p := proxies env !! (random_choice env (n_rand w)
                               mod length (proxies env)) in
      (Ok p, mkWorld (trace w ++ [EvProxy p]) (Datatypes.S (n_rand w)) (n_get w)
                     (n_arun w) (n_io w) (files w)).

Definition has_download_extension (url : str) : bool :=
  let url_lower := lower url in
  existsb (fun e => endswith e url_lower) DOWNLOAD_EXTENSIONS.

(* lines 16-36 *)
Definition is_downloadable (url : str) (proxy : option str) : M bool :=
  if has_download_extension url then ret true
  else
    try_except
      (let* resp := session_get url proxy 10 in
       let content_type := lower (header (content_type resp)) in
       let content_disp := lower (header (content_disposition resp)) in
       ret (contains (py "attachment") content_disp
            || existsb (fun mime => contains mime content_type) DOWNLOAD_MIMES))
      (fun _ => log (LogCheckError url) ;; ret false).

(* lines 54-58: the chunks are read and written until an empty one *)
Fixpoint stream_body (filepath : str) (chunks : list ReadOutcome) : M unit :=
  match chunks with
  | [] => emit (EvRead (ReadChunk []))
  | ReadRaises :: _ => emit (EvRead ReadRaises) ;; raise ClientError
  | ReadChunk [] :: _ => emit (EvRead (ReadChunk []))
  | ReadChunk c :: rest =>
      emit (EvRead (ReadChunk c)) ;;
      write filepath c ;;
      stream_body filepath rest
  end.

(* line 45 strips the double quote, the semicolon and the space *)
Definition is_quote_semicolon_space (c : ascii) : bool :=
  mem c ["034" ; ";" ; " "].

(* lines 43-48 *)
Definition download_filename (url : str) (resp : Response) : M str :=
  let content_disposition := header (content_disposition resp) in
  if contains (py "filename=") content_disposition then
    match split_sub (py "filename=") content_disposition !! 1 with
    | Some piece => ret (strip is_quote_semicolon_space piece)
    | None => raise IndexError
    end
  else
    let* parsed := of_option (urlparse (bracket_check env) url) in
    let name := basename (path parsed) in
    ret (if str_eqb name [] then py "downloaded_file" else name).

(* line 63: f"{url},{filename}\n" *)
Definition map_record (url filename : str) : str :=
  url ++ "," :: filename ++ ["010"].

(* lines 42-63: the body of the try statement *)
Definition download_body (url : str) (proxy : option str)
    (output_dir map_file : str) : M unit :=
  let* resp := session_get url proxy 20 in
  let* filename := download_filename url resp in
  makedirs output_dir ;;
  let filepath := path_join output_dir filename in
  open_write filepath (py "wb") ;;
  stream_body filepath (body resp) ;;
  log (LogDownloaded url filename) ;;
  open_append map_file ;;
  append map_file (map_record url filename).

(* lines 40-65 *)
Definition download_file (url : str) (proxy : option str)
    (output_dir map_file : str) : M unit :=
  try_except (download_body url proxy output_dir map_file)
             (fun _ => log (LogDownloadError url)).

(* line 129 *)
Definition proxy_url_of (proxy : option ProxyConfig) : option str :=
  match proxy with
  | Some p =>
      Some (replace (py "http://")
              (py "http://" ++ username p ++ ":" :: password p ++ ["@"])
              (server p))
  | None => None
  end.

(* lines 140-153: [left] attempts remain, [attempt] were made *)
Fixpoint retry_loop (url : str) (left attempt : nat) : M (option CrawlResult) :=
  match left with
  | O => log (LogGiveUp url) ;; ret None
  | Datatypes.S left' =>
      let* proxy := get_next_proxy in
      let* returned :=
        try_except
          (let* result := crawler_arun url proxy in
           if r_success result then ret (Some result)
           else log (LogRetryFailed (attempt + 1) proxy) ;; ret None)
          (fun _ => log (LogRetryError (attempt + 1) proxy) ;;
                    sleep 1 ;; ret None) in
      match returned with
      | Some result => ret (Some result)
      | None => retry_loop url left' (Datatypes.S attempt)
      end
  end.

Definition fetch_with_retry (url : str) : M (option CrawlResult) :=
  retry_loop url MAX_RETRIES 0.

(* lines 123-153 *)
Definition crawl_url (url : str) : M (option CrawlResult) :=
  let* proxy := get_next_proxy in
  let proxy_url := proxy_url_of proxy in
  let* downloaded :=
    try_except
      (let* d := is_downloadable url proxy_url in
       if d then
         download_file url proxy_url (py "output/docs") (py "links_map.txt") ;;
         ret true
       else ret false)
      (fun _ => log (LogAiohttpError url) ;; ret false) in
  if downloaded then ret None else fetch_with_retry url.

(* line 116 *)
Fixpoint select_urls (visited : gset str) (urls : list str) : M (list str) :=
  match urls with
  | [] => ret []
  | url :: rest =>
      let* n := of_option (normalize url) in
      if bool_decide (n ∈ visited) then select_urls visited rest
      else
        let* n' := of_option (normalize url) in
        let* ns := select_urls visited rest in
        ret (n' :: ns)
  end.

(* lines 179-182 *)
Fixpoint fold_links (base_domain : str) (visited next : gset str)
    (links : list str) : M (gset str) :=
  match links with
  | [] => ret next
  | href :: rest =>
      let* next_url := of_option (normalize href) in
      let* p := of_option (urlparse (bracket_check env) next_url) in
      if str_eqb (lower (netloc p)) base_domain
         && negb (bool_decide (next_url ∈ visited))
      then fold_links base_domain visited ({[next_url]} ∪ next) rest
      else fold_links base_domain visited next rest
  end.

(* lines 172-176 *)
Definition save_markdown (r : CrawlResult) : M unit :=
  if str_eqb (r_markdown r) [] then ret tt
  else
    let filename := py "output/" ++ safe_filename (r_url r) ++ py ".md" in
    makedirs (py "output") ;;
    open_write filename (py "w") ;;
    write filename (r_markdown r).

(* lines 163-184 *)
Fixpoint fold_results (base_domain : str) (visited next : gset str)
    (results : list (option CrawlResult)) : M (gset str * gset str) :=
  match results with
  | [] => ret (visited, next)
  | None :: rest => fold_results base_domain visited next rest
  | Some result :: rest =>
      let* norm_url := of_option (normalize (r_url result)) in
      let visited := {[norm_url]} ∪ visited in
      if r_success result then
        log (LogOk (r_url result) (length (r_markdown result))) ;;
        save_markdown result ;;
        let* next := fold_links base_domain visited next (r_links result) in
        fold_results base_domain visited next rest
      else
        log (LogError (r_url result) (r_error_message result)) ;;
        fold_results base_domain visited next rest
  end.

(* line 159 *)
Definition base_domain_of (start_urls : list str) : M str :=
  match start_urls with
  | [] => raise IndexError
  | first :: _ =>
      let* p := of_option (urlparse (bracket_check env) first) in
      ret (lower (netloc p))
  end.

(* lines 114-187: [left] iterations of the for loop remain.  The units of
   a depth run one after the other, in the order of urls_to_crawl. *)
Fixpoint crawl_loop (start_urls : list str) (left depth : nat)
    (visited current_urls : gset str) : M (gset str) :=
  match left with
  | O => ret visited
  | Datatypes.S left' =>
      log (LogDepth (depth + 1)) ;;
      let* urls_to_crawl := select_urls visited (elements current_urls) in
      match urls_to_crawl with
      | [] => ret visited
      | _ :: _ =>
          emit (EvWave urls_to_crawl) ;;
          let* results := mapM crawl_url urls_to_crawl in
          let* base_domain := base_domain_of start_urls in
          let* (visited', next_level_urls) :=
            fold_results base_domain visited ∅ results in
          emit (EvFolded visited' next_level_urls) ;;
          crawl_loop start_urls left' (Datatypes.S depth) visited'
                     next_level_urls
      end
  end.

(* lines 93-187; the result is the final visited set *)
Definition crawl_recursive_batch (start_urls : list str) (max_depth : nat)
  : M (gset str) :=
  let* normalized := mapM (fun u => of_option (normalize u)) start_urls in
  crawl_loop start_urls max_depth 0 ∅ (list_to_set normalized).

End Crawler.


(** ** The proxy file (siteCrawler.py, lines 70-86) *)

(* c.isspace() on ASCII: the code points 9-13, 28-31 and 32 *)
Definition is_space (c : ascii) : bool :=
  (Nat.leb 9 (code c) && Nat.leb (code c) 13)
  || (Nat.leb 28 (code c) && Nat.leb (code c) 31)
  || Nat.eqb (code c) 32.

(* s.split(c) for a single character c *)
Fixpoint split_char (c : ascii) (s : str) : list str :=
  match s with
  | [] => [[]]
  | x :: t =>
      if Ascii.eqb x c then [] :: split_char c t
      else match split_char c t with
           | piece :: pieces => (x :: piece) :: pieces
           | [] => [[x]]
           end
  end.

(* lines 78-84; None stands for the ValueError of the unpacking *)
Definition parse_proxy (proxy_line : str) : option ProxyConfig :=
  match split_char ":" (strip is_space proxy_line) with
  | [ip; port; user; pwd] =>
      Some (mkProxy (py "http://" ++ ip ++ ":" :: port) user pwd)
  | _ => None
  end.

Fixpoint parse_proxies (lines : list str) : Res (list ProxyConfig) :=
  match lines with
  | [] => Ok []
  | line :: rest =>
      match parse_proxy line with
      | None => Raised ValueError
      | Some p =>
          match parse_proxies rest with
          | Ok ps => Ok (p :: ps)
          | Raised e => Raised e
          end
      end
  end.

(* lines 70-76: [file] holds the lines of the file, None when it cannot
   be opened *)
Definition load_proxies (use_proxies : bool) (file : option (list str))
  : Res (list ProxyConfig) :=
  if negb use_proxies then Ok []
  else match file with
       | None => Raised OSError
       | Some lines => parse_proxies lines
       end.

(** ** The program as it is run (siteCrawler.py, lines 189-190) *)

(* max_concurrent only sizes the dispatcher and the semaphore; the units
   of the model run one after the other *)
Definition main (env : Env) : M (gset str) :=
  crawl_recursive_batch env [py "https://www.royalchallengers.com/"] 1.
(** ** Notions used by the statements *)

(* the events of a run that started in [w] and ended in [w'] *)
Definition since (w w' : World) : list Event :=
  drop (length (trace w)) (trace w').

Definition is_render (e : Event) : bool :=
  match e with EvRender _ _ => true | _ => false end.

Definition is_draw (e : Event) : bool :=
  match e with EvProxy _ => true | _ => false end.

Definition is_get (e : Event) : bool :=
  match e with EvGet _ _ _ => true | _ => false end.

(* the proxy that get_next_proxy returns when [k] draws were made *)
Definition drawn (env : Env) (k : nat) : option ProxyConfig :=
  if negb (USE_PROXIES env) || bool_decide (proxies env = []) then None
  else proxies env !! (random_choice env k mod length (proxies env)).

Definition draw_step (env : Env) : nat :=
  if negb (USE_PROXIES env) || bool_decide (proxies env = []) then 0 else 1.

(* the proxy and the renderer's answer at the [j]-th attempt after [w] *)
Definition proxy_at (env : Env) (w : World) (j : nat) : option ProxyConfig :=
  drawn env (n_rand w + j * draw_step env).

Definition outcome_at (env : Env) (w : World) (url : str) (j : nat)
  : ArunOutcome :=
  arun env (n_arun w + j) url (proxy_at env w j).

Definition succeeded (o : ArunOutcome) : option CrawlResult :=
  match o with
  | ArunReturns r => if r_success r then Some r else None
  | ArunRaises => None
  end.

(* what the [j]-th attempt after [w] leaves in the trace; [a] attempts
   were made before [w] *)
Definition attempt_events (env : Env) (w : World) (url : str) (a j : nat)
  : list Event :=
  let p := proxy_at env w j in
  [EvProxy p; EvRender url p] ++
  match outcome_at env w url j with
  | ArunRaises => [EvLog (LogRetryError (a + j + 1) p); EvSleep 1]
  | ArunReturns r =>
      if r_success r then [] else [EvLog (LogRetryFailed (a + j + 1) p)]
  end.



Definition chunk_events (filepath : str) (chunks : list str) : list Event :=
  flat_map (fun c => [EvRead (ReadChunk c); EvWrite filepath c]) chunks.

(* the trace of a download in which nothing fails *)
Definition download_events (url : str) (proxy : option str)
    (output_dir map_file filename : str) (chunks : list str) : list Event :=
  let filepath := path_join output_dir filename in
  [EvGet url proxy 20; EvMakedirs output_dir; EvOpen filepath (py "wb")]
  ++ chunk_events filepath chunks
  ++ [EvRead (ReadChunk []); EvLog (LogDownloaded url filename);
      EvOpen map_file (py "a"); EvAppend map_file (map_record url filename)].

(* the events that the loop itself leaves, as opposed to its units *)
Definition is_loop_event (e : Event) : bool :=
  match e with EvWave _ | EvFolded _ _ => true | _ => false end.

(* the urls of all the tasks of a trace, in the order of their creation *)
Definition fetched (t : list Event) : list str :=
  flat_map (fun e => match e with EvWave urls => urls | _ => [] end) t.

(* netloc.lower() of a URL, as line 181 computes it *)
Definition host_of (env : Env) (u : str) : option str :=
  option_map (fun p => lower (netloc p)) (urlparse (bracket_check env) u).

(* DomainScope: base_domain of line 159 *)
Definition domain_scope (env : Env) (start_urls : list str) : option str :=
  match start_urls with
  | [] => None
  | first :: _ => host_of env first
  end.

(* the normalized result.url of the results that are not None *)
Definition result_urls (env : Env) (results : list (option CrawlResult))
  : gset str :=
  list_to_set
    (omap (fun o => match o with
                    | Some r => normalize env (r_url r)
                    | None => None
                    end) results).

(* what a run may leave in its trace when [V] is visited: a wave takes
   no visited URL, a fold only adds to the visited set and passes on
   URLs of the domain [scope] only *)
Fixpoint loop_trace (env : Env) (scope : option str) (V : gset str)
    (t : list Event) : Prop :=
  match t with
  | [] => True
  | EvWave urls :: t' =>
      (forall u, u ∈ urls -> u ∉ V) /\ loop_trace env scope V t'
  | EvFolded v next :: t' =>
      V ⊆ v /\ (forall u, u ∈ next -> host_of env u = scope /\ scope <> None)
      /\ loop_trace env scope v t'
  | _ :: t' => loop_trace env scope V t'
  end.


Definition unit_events (t : list Event) : Prop :=
  Forall (fun e => is_loop_event e = false) t.

(* a computation that only adds events of the units to the trace *)
Definition quiet {A} (m : M A) : Prop :=
  forall w, exists new, trace (snd (m w)) = trace w ++ new /\ unit_events new.

(** ** Notions about URLs *)

(* the first two steps of urlsplit *)
Definition clean_url (url : str) : str :=
  remove_unsafe (lstrip is_c0_or_space url).

(* urlsplit after its first two steps *)
Definition urlsplit_clean (check : str -> bool) (url : str)
  : option SplitResult :=
  let '(sch, url) := split_scheme url in
  let '(net, url) :=
    if startswith (py "//") url then splitnetloc url else ([], url) in
  if netloc_ok check net then
    let '(url, frag) := split_on "#" url in
    let '(url, qry) := split_on "?" url in
    Some (mkSplit sch net url qry frag)
  else None.

(* the test of urlunsplit for writing the "//" of a netloc *)
Definition has_net (s n p : str) : bool :=
  negb (str_eqb n [])
  || (negb (str_eqb s []) && in_list s uses_netloc
      && negb (startswith (py "//") p)).

(* the path as urlunsplit writes it *)
Definition slash_fix (s n p : str) : str :=
  if has_net s n p && (negb (str_eqb p []) && negb (startswith (py "/") p))
  then "/" :: p else p.

(* a URL put together from its parts; [net] tells whether "//" is written *)
Definition assemble (s n p q f : str) (net : bool) : str :=
  (if str_eqb s [] then [] else s ++ [":"])
  ++ (if net then py "//" ++ n else [])
  ++ p
  ++ (if str_eqb q [] then [] else "?" :: q)
  ++ (if str_eqb f [] then [] else "#" :: f).

(* what normalize_url makes of the components *)
Definition norm_split (r : SplitResult) : SplitResult :=
  mkSplit (s_scheme r) (lower (s_netloc r))
          (lower (rstrip is_slash (s_path r))) (s_query r) [].




Definition scheme_chars_ok (s : str) : bool :=
  match s with
  | [] => true
  | c :: _ => is_alpha c && forallb is_scheme_char s
  end.






(* the params as urlunparse writes them *)
Definition params_part (a : str) : str :=
  if str_eqb a [] then [] else ";" :: a.

(** ** Environments for the examples *)

(* a validation of bracketed hosts that accepts them all *)
Definition accept_all (n : str) : bool := true.

Definition html_response (chunks : list ReadOutcome) : Response :=
  mkResponse (Some (py "text/html")) None chunks.

Definition page (url : str) (links : list str) : ArunOutcome :=
  ArunReturns (mkResult url true (py "text") links []).

(* no proxies; nothing answers: every request and every render raises *)
Definition env_offline : Env :=
  mkEnv accept_all false [] (fun _ => 0) (fun _ _ _ => GetRaises)
        (fun _ _ _ => ArunRaises) (fun _ => true).

(* the third render of a run succeeds, the others raise *)
Definition env_third_try : Env :=
  mkEnv accept_all false [] (fun _ => 0) (fun _ _ _ => GetRaises)
        (fun k url _ => if Nat.eqb k 2 then page url [] else ArunRaises)
        (fun _ => true).

(* http://h/a renders and links to http://h/b, which never renders *)
Definition env_two_pages : Env :=
  mkEnv accept_all false [] (fun _ => 0) (fun _ _ _ => GetRaises)
        (fun _ url _ =>
           if str_eqb url (py "http://h/a") then page url [py "http://h/b"]
           else ArunRaises)
        (fun _ => true).

(* every request is answered by a small html body; every page renders
   and links off the domain *)
Definition env_online : Env :=
  mkEnv accept_all false [] (fun _ => 0)
        (fun _ _ _ => GetReturns (html_response [ReadChunk (py "data")]))
        (fun _ url _ => page url [py "https://other.test/x"])
        (fun _ => true).

Definition seed_a : str := py "http://h/a".
Definition seed_b : str := py "http://h/b".
Definition seed_pdf : str := py "http://h/f.pdf".

(** ** Notions about what a computation adds to the trace *)

Definition is_sleep (e : Event) : bool :=
  match e with EvSleep _ => true | _ => false end.

Definition is_wave (e : Event) : bool :=
  match e with EvWave _ => true | _ => false end.

(* a computation that adds to the trace events that [T] accepts, and ends
   in a value that [Q] accepts or in an exception that [E] accepts *)
Definition runs {A} (T : list Event -> Prop) (E : Exn -> Prop)
    (Q : A -> Prop) (m : M A) : Prop :=
  forall w, exists new,
    trace (snd (m w)) = trace w ++ new /\ T new /\
    match fst (m w) with
    | Ok a => Q a
    | Raised e => E e
    end.

(* at most [g] requests, [r] renders and [s] sleeps *)
Definition within (g r s : nat) (t : list Event) : Prop :=
  length (List.filter is_get t) <= g /\
  length (List.filter is_render t) <= r /\
  length (List.filter is_sleep t) <= s.

Definition no_exception (e : Exn) : Prop := False.

Definition any_value {A} (a : A) : Prop := True.

(* what crawl_url returns: None, or a result of the renderer for the URL
   that succeeded *)
Definition none_or_success (env : Env) (url : str) (r : option CrawlResult)
  : Prop :=
  match r with
  | None => True
  | Some x => r_success x = true /\ exists k p, arun env k url p = ArunReturns x
  end.

(* the two lines that are printed in no run: [ERROR] of line 184 and
   [AIOHTTP ERROR] of line 137 *)
Definition is_dead_line (e : Event) : bool :=
  match e with
  | EvLog (LogError _ _) | EvLog (LogAiohttpError _) => true
  | _ => false
  end.

(* a URL without square brackets *)
Definition bracket_free (u : str) : bool := negb (mem "[" u) && negb (mem "]" u).


(* an environment whose renderer reports only URLs without brackets *)
Definition renders_bracket_free (env : Env) : Prop :=
  forall k url p r,
    arun env k url p = ArunReturns r ->
    bracket_free (r_url r) = true /\
    forallb bracket_free (r_links r) = true.

(* a trace without an event that [f] marks *)
Definition avoids (f : Event -> bool) (t : list Event) : Prop :=
  Forall (fun e => f e = false) t.

(* [T] accepts the empty trace, and the traces it accepts can be joined *)
Definition closed (T : list Event -> Prop) : Prop :=
  T [] /\ forall x y, T x -> T y -> T (x ++ y).

(* a run in which no URL holds a bracket: the seeds and what the renderer
   reports *)
Definition bracket_free_run (env : Env) (start_urls : list str) : Prop :=
  forallb bracket_free start_urls = true /\ renders_bracket_free env.

(* the exceptions that leave crawl_recursive_batch, and their causes *)
Definition crawl_exception (env : Env) (start_urls : list str) (e : Exn)
  : Prop :=
  (e = ValueError /\ ~ bracket_free_run env start_urls) \/
  (e = OSError /\ exists k, io_ok env k = false).

(* what the loop leaves to its units: requests, renders and sleeps; with
   the start of a depth and the two lines that are never printed, the
   events that no step of the loop between two depths adds *)
Definition is_loop_noise (e : Event) : bool :=
  is_get e || is_render e || is_sleep e || is_wave e || is_dead_line e.

Definition is_unit_noise (e : Event) : bool := is_wave e || is_dead_line e.

(* what the units of [n] tasks may add *)
Definition units_of (n : nat) (t : list Event) : Prop :=
  within (2 * n) (MAX_RETRIES * n) (MAX_RETRIES * n) t /\
  avoids is_unit_noise t.

(* the trace of a run of at most [depths] depths: per task at most two
   requests, MAX_RETRIES renders and MAX_RETRIES sleeps *)
Definition run_shape (depths : nat) (t : list Event) : Prop :=
  length (List.filter is_wave t) <= depths /\
  within (2 * length (fetched t)) (MAX_RETRIES * length (fetched t))
         (MAX_RETRIES * length (fetched t)) t /\
  avoids is_dead_line t.

(** ** More environments for the examples *)

(* proxies are in use, and the draw takes the second of two *)
Definition env_proxied : Env :=
  mkEnv accept_all true
        [mkProxy (py "http://1.2.3.4:80") (py "u") (py "p");
         mkProxy (py "http://5.6.7.8:81") (py "v") (py "q")]
        (fun _ => 1) (fun _ _ _ => GetRaises) (fun _ _ _ => ArunRaises)
        (fun _ => true).

(* every page renders and links to http://h/b *)
Definition env_chain : Env :=
  mkEnv accept_all false [] (fun _ => 0) (fun _ _ _ => GetRaises)
        (fun _ url _ => page url [py "http://h/b"]) (fun _ => true).


(** ** Notions about what normalize_url makes of the components *)

(* s.isascii() *)
Definition is_ascii (s : str) : bool :=
  forallb (fun c => Nat.ltb (code c) 128) s.

(* the part of a path after its last "/", the whole path when it has
   none; and the part before it, with that "/" *)
Definition last_segment (x : str) : str :=
  match split_last "/" x with
  | Some (_, seg) => drop 1 seg
  | None => x
  end.

Definition dir_part (x : str) : str :=
  match split_last "/" x with
  | Some (dir, _) => dir ++ ["/"]
  | None => []
  end.

(* the path and the params that urlparse makes of the path of urlsplit *)
Definition split_params (s x : str) : str * str :=
  if in_list s uses_params && mem ";" x then splitparams x else (x, []).

(* the path that normalize_url hands to urlunparse, and the path with the
   params as urlunparse hands them to urlunsplit *)
Definition norm_path (p : ParseResult) : str :=
  lower (rstrip is_slash (path p)).

Definition written_path (p : ParseResult) : str :=
  norm_path p ++ params_part (params p).

(* urlunsplit writes "//" and the netloc *)
Definition net_written (p : ParseResult) : bool :=
  has_net (scheme p) (lower (netloc p)) (written_path p).

(* no netloc is written and the path starts with "//": what follows is
   read as a netloc when the result is parsed *)
Definition path_as_netloc (p : ParseResult) : bool :=
  negb (net_written p) && startswith (py "//") (written_path p).

(* the scheme has params, and without its trailing slashes the path has
   a ";" in its last segment *)
Definition exposed (p : ParseResult) : bool :=
  in_list (scheme p) uses_params && mem ";" (last_segment (norm_path p)).

Definition regular (p : ParseResult) : bool :=
  negb (path_as_netloc p) && negb (exposed p).

(* the path as it is read back: with the "/" that urlunsplit writes
   between a netloc and a path that does not start with one *)
Definition refit (p : ParseResult) : str :=
  if net_written p && negb (str_eqb (written_path p) [])
     && negb (startswith (py "/") (written_path p))
  then "/" :: norm_path p else norm_path p.

(* the components that normalize_url aims at *)
Definition normal_form (p : ParseResult) : ParseResult :=
  mkParse (scheme p) (lower (netloc p)) (refit p) (params p) (query p) [].

(* the result of normalize_url has the params of the URL *)
Definition params_kept (p : ParseResult) : bool :=
  if path_as_netloc p && str_eqb (snd (splitnetloc (written_path p))) []
  then str_eqb (params p) []
  else
    negb (exposed p)
    || (str_eqb (params p) []
        && match split_first ";" (last_segment (norm_path p)) with
           | Some (_, t2) => str_eqb t2 []
           | None => true
           end).

(* a written path [x] that is written again as it is when it is parsed
   and normalized once more; [net] tells whether a netloc is written
   before it *)
Definition stable_path (s : str) (net : bool) (x : str) : bool :=
  negb (in_list s uses_params)
  || match split_first ";" (last_segment x) with
     | None => true
     | Some (t1, t2) =>
         negb (str_eqb t2 [])
         && (negb (str_eqb t1 []) || str_eqb (dir_part x) []
             || (net && str_eqb (dir_part x) (py "/")))
     end.

(* normalize_url returns a fixed point *)
Definition stable (check : str -> bool) (p : ParseResult) : bool :=
  if path_as_netloc p then
    let '(n2, rest) := splitnetloc (written_path p) in
    netloc_ok check n2 && str_eqb (lower n2) n2
    && (str_eqb rest []
        || (has_net (scheme p) n2 rest && stable_path (scheme p) true rest))
  else stable_path (scheme p) (net_written p) (written_path p).
(** * Fetch with retry *)

Section RetryFacts.
Variable env : Env.

Lemma one_attempt_world url left a w :
  retry_loop env url (Datatypes.S left) a w =
  let p := proxy_at env w 0 in
  let w1 := mkWorld (trace w ++ attempt_events env w url a 0)
                    (n_rand w + draw_step env) (n_get w)
                    (Datatypes.S (n_arun w)) (n_io w) (files w) in
  match succeeded (outcome_at env w url 0) with
  | Some r => (Ok (Some r), w1)
  | None => retry_loop env url left (Datatypes.S a) w1
  end.
Proof.
  unfold attempt_events, outcome_at, proxy_at, drawn, draw_step, succeeded.
  cbn [retry_loop]. unfold bind at 1. unfold get_next_proxy.
  rewrite ?Nat.add_0_r.
  destruct (negb (USE_PROXIES env) || bool_decide (proxies env = [])) eqn:E;
    cbn -[retry_loop Nat.modulo];
    unfold bind, try_except, crawler_arun, log, sleep, emit, ret;
    cbn -[retry_loop Nat.modulo].
  all: match goal with |- context [arun env ?n ?u ?p] => destruct (arun env n u p) as [|r]; [|destruct (r_success r)] end.

  all: cbn -[retry_loop]; rewrite <- ?app_assoc, ?Nat.add_0_r, ?Nat.add_1_r, ?app_nil_r;
       reflexivity.
Qed.

Lemma outcome_at_shift url w w1 j :
  n_rand w1 = n_rand w + draw_step env -> n_arun w1 = Datatypes.S (n_arun w) ->
  proxy_at env w1 j = proxy_at env w (Datatypes.S j) /\
  outcome_at env w1 url j = outcome_at env w url (Datatypes.S j).
Proof.
  intros Hr Ha. unfold outcome_at, proxy_at. rewrite Hr, Ha.
  replace (n_rand w + draw_step env + j * draw_step env)
    with (n_rand w + Datatypes.S j * draw_step env) by lia.
  replace (Datatypes.S (n_arun w) + j) with (n_arun w + Datatypes.S j) by lia.
  done.
Qed.

Lemma attempt_events_shift url w w1 a j :
  n_rand w1 = n_rand w + draw_step env -> n_arun w1 = Datatypes.S (n_arun w) ->
  attempt_events env w1 url (Datatypes.S a) j =
  attempt_events env w url a (Datatypes.S j).
Proof.
  intros Hr Ha. unfold attempt_events.
  destruct (outcome_at_shift url w w1 j Hr Ha) as [-> ->].
  replace (Datatypes.S a + j + 1) with (a + Datatypes.S j + 1) by lia. done.
Qed.

Lemma flat_map_seq_S {A} (f : nat -> list A) n :
  flat_map f (seq 0 (Datatypes.S n)) = f 0 ++ flat_map (fun j => f (Datatypes.S j)) (seq 0 n).
Proof.
  cbn [seq flat_map]. f_equal. rewrite <- seq_shift.
  induction (seq 0 n) as [|x l IH]; cbn; [done|]. by rewrite IH.
Qed.

Lemma retry_loop_all_fail url left : forall a w,
  (forall j, j < left -> succeeded (outcome_at env w url j) = None) ->
  exists w',
    retry_loop env url left a w = (Ok None, w') /\
    trace w' = trace w ++ flat_map (attempt_events env w url a) (seq 0 left)
                       ++ [EvLog (LogGiveUp url)].
Proof.
  induction left as [|left IH]; intros a w Hfail.
  - eexists. split; [reflexivity|]. done.
  - rewrite one_attempt_world. cbv zeta. rewrite (Hfail 0) by lia.
    set (w1 := mkWorld _ _ _ _ _ _).
    destruct (IH (Datatypes.S a) w1) as (w' & Hrun & Htr).
    { intros j Hj.
      destruct (outcome_at_shift url w w1 j eq_refl eq_refl) as [_ ->].
      apply Hfail. lia. }
    exists w'. split; [done|]. rewrite Htr, flat_map_seq_S. cbn [trace w1].
    rewrite <- !app_assoc. do 3 f_equal.
    apply flat_map_ext. intros j. by apply attempt_events_shift.
Qed.

Lemma retry_loop_first_success url k r : forall left a w,
  k < left ->
  (forall j, j < k -> succeeded (outcome_at env w url j) = None) ->
  succeeded (outcome_at env w url k) = Some r ->
  exists w',
    retry_loop env url left a w = (Ok (Some r), w') /\
    trace w' = trace w ++ flat_map (attempt_events env w url a)
                                   (seq 0 (Datatypes.S k)).
Proof.
  induction k as [|k IH]; intros left a w Hk Hfail Hok;
    (destruct left as [|left]; [lia|]); rewrite one_attempt_world; cbv zeta.
  - rewrite Hok. eexists. split; [reflexivity|]. cbn. by rewrite app_nil_r.
  - rewrite (Hfail 0) by lia. set (w1 := mkWorld _ _ _ _ _ _).
    destruct (IH left (Datatypes.S a) w1) as (w' & Hrun & Htr).
    + lia.
    + intros j Hj.
      destruct (outcome_at_shift url w w1 j eq_refl eq_refl) as [_ ->].
      apply Hfail. lia.
    + destruct (outcome_at_shift url w w1 k eq_refl eq_refl) as [_ ->]. done.
    + exists w'. split; [done|].
      rewrite Htr, (flat_map_seq_S _ (Datatypes.S k)). cbn [trace w1].
      rewrite <- !app_assoc. do 2 f_equal.
      apply flat_map_ext. intros j. by apply attempt_events_shift.
Qed.

Lemma since_app w w' new : trace w' = trace w ++ new -> since w w' = new.
Proof. intros H. unfold since. by rewrite H, drop_app_length. Qed.

Lemma filter_flat_map {A B} (f : B -> bool) (g : A -> list B) l :
  List.filter f (flat_map g l) = flat_map (fun x => List.filter f (g x)) l.
Proof.
  induction l as [|x l IH]; cbn; [done|].
  by rewrite List.filter_app, IH.
Qed.

Lemma flat_map_singleton {A B} (g : A -> B) l :
  flat_map (fun x => [g x]) l = map g l.
Proof. induction l as [|x l IH]; cbn; [done|]. by rewrite IH. Qed.

Lemma attempt_events_renders url w a j :
  List.filter is_render (attempt_events env w url a j)
  = [EvRender url (proxy_at env w j)].
Proof.
  unfold attempt_events. cbn.
  destruct (outcome_at env w url j) as [|r]; [done|]. by destruct (r_success r).
Qed.

Lemma attempt_events_draws url w a j :
  List.filter is_draw (attempt_events env w url a j)
  = [EvProxy (proxy_at env w j)].
Proof.
  unfold attempt_events. cbn.
  destruct (outcome_at env w url j) as [|r]; [done|]. by destruct (r_success r).
Qed.

Lemma attempts_renders url w a n :
  List.filter is_render (flat_map (attempt_events env w url a) (seq 0 n))
  = map (fun j => EvRender url (proxy_at env w j)) (seq 0 n).
Proof.
  rewrite filter_flat_map, <- flat_map_singleton.
  apply flat_map_ext. intros j. apply attempt_events_renders.
Qed.

Lemma attempts_draws url w a n :
  List.filter is_draw (flat_map (attempt_events env w url a) (seq 0 n))
  = map (fun j => EvProxy (proxy_at env w j)) (seq 0 n).
Proof.
  rewrite filter_flat_map, <- flat_map_singleton.
  apply flat_map_ext. intros j. apply attempt_events_draws.
Qed.

(** C6: when every attempt fails, fetch_with_retry makes exactly
    MAX_RETRIES = 5 render attempts and returns None (the code's Failed);
    when attempt [k] is the first to succeed it returns that result after
    exactly [k + 1] attempts; every attempt is preceded by its own call of
    get_next_proxy and renders through the proxy that call returned. *)
Theorem fetch_with_retry_attempts (url : str) (w : World) :
  ((forall j, j < MAX_RETRIES -> succeeded (outcome_at env w url j) = None) ->
   exists w',
     fetch_with_retry env url w = (Ok None, w') /\
     since w w' = flat_map (attempt_events env w url 0) (seq 0 MAX_RETRIES)
                  ++ [EvLog (LogGiveUp url)] /\
     List.filter is_render (since w w')
       = map (fun j => EvRender url (proxy_at env w j)) (seq 0 MAX_RETRIES) /\
     List.filter is_draw (since w w')
       = map (fun j => EvProxy (proxy_at env w j)) (seq 0 MAX_RETRIES) /\
     length (List.filter is_render (since w w')) = 5) /\
  (forall k r,
     k < MAX_RETRIES ->
     (forall j, j < k -> succeeded (outcome_at env w url j) = None) ->
     succeeded (outcome_at env w url k) = Some r ->
     exists w',
       fetch_with_retry env url w = (Ok (Some r), w') /\
       since w w' = flat_map (attempt_events env w url 0)
                             (seq 0 (Datatypes.S k)) /\
       List.filter is_render (since w w')
         = map (fun j => EvRender url (proxy_at env w j))
               (seq 0 (Datatypes.S k)) /\
       List.filter is_draw (since w w')
         = map (fun j => EvProxy (proxy_at env w j)) (seq 0 (Datatypes.S k))).
Proof.
  split.
  - intros Hfail.
    destruct (retry_loop_all_fail url MAX_RETRIES 0 w Hfail) as (w' & Hrun & Htr).
    exists w'. apply since_app in Htr. rewrite Htr. split; [done|]. split; [done|].
    rewrite !List.filter_app, attempts_renders, attempts_draws. cbn [List.filter is_render is_draw].
    rewrite !app_nil_r. repeat split.
  - intros k r Hk Hfail Hok.
    destruct (retry_loop_first_success url k r MAX_RETRIES 0 w Hk Hfail Hok)
      as (w' & Hrun & Htr).
    exists w'. apply since_app in Htr. rewrite Htr. split; [done|]. split; [done|].
    by rewrite attempts_renders, attempts_draws.
Qed.

End RetryFacts.
(** * The classifier and the fall-through to the render path *)

Lemma startswith_app p s : startswith p (p ++ s) = true.
Proof.
  induction p as [|c p IH]; cbn; [done|].
  by rewrite Ascii.eqb_refl, IH.
Qed.

Lemma endswith_app stem e : endswith e (stem ++ e) = true.
Proof. unfold endswith. rewrite rev_app_distr. apply startswith_app. Qed.

Lemma existsb_elem_of {A} (f : A -> bool) (l : list A) x :
  x ∈ l -> f x = true -> existsb f l = true.
Proof.
  intros Hin Hf. apply existsb_exists. exists x. split; [|done].
  by apply list_elem_of_In.
Qed.

Section ClassifierFacts.
Variable env : Env.

Lemma retry_loop_extends url left : forall a w,
  exists new, trace (snd (retry_loop env url left a w)) = trace w ++ new.
Proof.
  induction left as [|left IH]; intros a w.
  - by eexists.
  - rewrite one_attempt_world. cbv zeta.
    destruct (succeeded _); [by eexists|].
    match goal with |- context [retry_loop env url left ?b ?w1] =>
      destruct (IH b w1) as [new Hnew] end.
    rewrite Hnew. cbn [trace]. rewrite <- app_assoc. by eexists.
Qed.

Lemma fetch_with_retry_renders url w :
  exists q, EvRender url q ∈ since w (snd (fetch_with_retry env url w)).
Proof.
  unfold fetch_with_retry, MAX_RETRIES. rewrite one_attempt_world. cbv zeta.
  exists (proxy_at env w 0).
  assert (Hin : EvRender url (proxy_at env w 0) ∈ attempt_events env w url 0 0).
  { unfold attempt_events. apply elem_of_app. left. apply list_elem_of_further, list_elem_of_here. }
  destruct (succeeded _).
  - cbn [snd]. erewrite since_app by reflexivity. done.
  - match goal with |- context [retry_loop env url ?l ?b ?w1] =>
      destruct (retry_loop_extends url l b w1) as [new Hnew] end.
    erewrite since_app; [|rewrite Hnew; cbn [trace]; by rewrite <- app_assoc].
    apply elem_of_app. by left.
Qed.

(** C5, as the code has it: a URL whose text, lower-cased, ends in one of
    .pdf, .doc, .docx, .txt is classified as downloadable, and the world is
    left as it was: no request is sent and nothing is logged. *)
Theorem is_downloadable_by_extension (url stem ext : str)
    (proxy : option str) (w : World) :
  ext ∈ DOWNLOAD_EXTENSIONS ->
  lower url = stem ++ ext ->
  is_downloadable env url proxy w = (Ok true, w).
Proof.
  intros Hext Hurl. unfold is_downloadable, has_download_extension.
  rewrite (existsb_elem_of _ _ ext Hext); [done|].
  rewrite Hurl. apply endswith_app.
Qed.

Lemma is_downloadable_probe_fails url proxy w :
  has_download_extension url = false ->
  http_get env (n_get w) url proxy = GetRaises ->
  is_downloadable env url proxy w =
  (Ok false,
   mkWorld (trace w ++ [EvGet url proxy 10; EvLog (LogCheckError url)])
           (n_rand w) (Datatypes.S (n_get w)) (n_arun w) (n_io w) (files w)).
Proof.
  intros Hext Hget. unfold is_downloadable. rewrite Hext.
  unfold try_except, bind, session_get. rewrite Hget.
  unfold log, emit, ret. cbn. by rewrite <- app_assoc.
Qed.

(** C8: when the probe of the classifier raises (network error or
    timeout), is_downloadable logs the error and answers False, and
    crawl_url goes on to the render loop for the same URL: the renderer is
    called for it at least once. *)
Theorem probe_failure_falls_through (url : str) (w : World) :
  has_download_extension url = false ->
  http_get env (n_get w) url (proxy_url_of (proxy_at env w 0)) = GetRaises ->
  exists w1,
    crawl_url env url w = fetch_with_retry env url w1 /\
    since w w1 = [EvProxy (proxy_at env w 0);
                  EvGet url (proxy_url_of (proxy_at env w 0)) 10;
                  EvLog (LogCheckError url)] /\
    exists q, EvRender url q ∈ since w (snd (crawl_url env url w)).
Proof.
  intros Hext Hget.
  set (p := proxy_at env w 0) in *.
  set (w0 := snd (get_next_proxy env w)).
  assert (Hdraw : get_next_proxy env w = (Ok p, w0)
                  /\ trace w0 = trace w ++ [EvProxy p] /\ n_get w0 = n_get w).
  { subst p w0. unfold get_next_proxy, proxy_at, drawn, draw_step.
    rewrite Nat.add_0_r.
    by destruct (negb (USE_PROXIES env) || bool_decide (proxies env = [])). }
  destruct Hdraw as (Hdraw & Htr0 & Hget0).
  rewrite <- Hget0 in Hget.
  pose proof (is_downloadable_probe_fails url _ w0 Hext Hget) as Hprobe.
  set (w1 := mkWorld _ _ _ _ _ _) in Hprobe.
  assert (Hrun : crawl_url env url w = fetch_with_retry env url w1).
  { unfold crawl_url. unfold bind at 1. rewrite Hdraw.
    unfold bind at 1. unfold try_except at 1. unfold bind at 1.
    fold p. rewrite Hprobe. reflexivity. }
  assert (Hsince : since w w1 = [EvProxy p; EvGet url (proxy_url_of p) 10;
                                 EvLog (LogCheckError url)]).
  { apply since_app. subst w1. cbn [trace]. rewrite Htr0.
    by rewrite <- app_assoc. }
  exists w1. split; [done|]. split; [done|].
  rewrite Hrun.
  destruct (fetch_with_retry_renders url w1) as [q Hq]. exists q.
  destruct (retry_loop_extends url MAX_RETRIES 0 w1) as [new Hnew].
  fold (fetch_with_retry env url) in Hnew.
  rewrite (since_app w1 _ new Hnew) in Hq.
  erewrite since_app; [|rewrite Hnew; subst w1; cbn [trace]; rewrite Htr0;
                        rewrite <- !app_assoc; reflexivity].
  cbn. by do 3 apply list_elem_of_further.
Qed.

End ClassifierFacts.
(** * The downloader *)





Section DownloadFacts.
Variable env : Env.





Lemma bind_eq {A B} (m : M A) (k : A -> M B) w :
  bind m k w = match m w with
               | (Ok a, w') => k a w'
               | (Raised e, w') => (Raised e, w')
               end.
Proof. reflexivity. Qed.



End DownloadFacts.
(** * The crawl loop *)

Lemma quiet_ret {A} (a : A) : quiet (ret a).
Proof. intros w. exists []. cbn. rewrite app_nil_r. split; [done|constructor]. Qed.

Lemma quiet_raise {A} e : quiet (@raise A e).
Proof. intros w. exists []. cbn. rewrite app_nil_r. split; [done|constructor]. Qed.

Lemma quiet_bind {A B} (m : M A) (k : A -> M B) :
  quiet m -> (forall a, quiet (k a)) -> quiet (bind m k).
Proof.
  intros Hm Hk w. unfold bind. destruct (Hm w) as (n1 & H1 & U1).
  destruct (m w) as [[a|e] w1]; cbn [snd] in *.
  - destruct (Hk a w1) as (n2 & H2 & U2). exists (n1 ++ n2).
    rewrite H2, H1, <- app_assoc. split; [done|]. by apply Forall_app.
  - by exists n1.
Qed.

Lemma quiet_try {A} (m : M A) (h : Exn -> M A) :
  quiet m -> (forall e, quiet (h e)) -> quiet (try_except m h).
Proof.
  intros Hm Hh w. unfold try_except. destruct (Hm w) as (n1 & H1 & U1).
  destruct (m w) as [[a|e] w1]; cbn [snd] in *.
  - by exists n1.
  - destruct (Hh e w1) as (n2 & H2 & U2). exists (n1 ++ n2).
    rewrite H2, H1, <- app_assoc. split; [done|]. by apply Forall_app.
Qed.

Lemma quiet_emit e : is_loop_event e = false -> quiet (emit e).
Proof. intros He w. exists [e]. split; [done|]. by repeat constructor. Qed.

Lemma quiet_of_option {A} (o : option A) : quiet (of_option o).
Proof. destruct o; [apply quiet_ret|apply quiet_raise]. Qed.

Ltac quiet_step :=
  first
    [ assumption
    | apply quiet_ret | apply quiet_raise | apply quiet_of_option
    | apply quiet_emit; reflexivity
    | apply quiet_bind; [|intros]
    | apply quiet_try; [|intros]
    | match goal with
      | |- quiet (if ?b then _ else _) => destruct b
      | |- quiet (match ?x with _ => _ end) => destruct x
      end ].

Section LoopFacts.
Variable env : Env.

Lemma quiet_io e effect : is_loop_event e = false -> quiet (io env e effect).
Proof.
  intros He w. unfold io. destruct (io_ok env (n_io w)); cbn.
  - exists [e]. split; [done|]. by repeat constructor.
  - exists []. rewrite app_nil_r. split; [done|constructor].
Qed.

Lemma quiet_session_get url proxy timeout :
  quiet (session_get env url proxy timeout).
Proof.
  intros w. exists [EvGet url proxy timeout]. unfold session_get.
  split; [by destruct (http_get _ _ _ _)|by repeat constructor].
Qed.

Lemma quiet_crawler_arun url proxy : quiet (crawler_arun env url proxy).
Proof.
  intros w. exists [EvRender url proxy]. unfold crawler_arun.
  split; [by destruct (arun _ _ _ _)|by repeat constructor].
Qed.

Lemma quiet_get_next_proxy : quiet (get_next_proxy env).
Proof.
  intros w. unfold get_next_proxy.
  destruct (negb _ || _); cbn; eexists; (split; [reflexivity|]);
    by repeat constructor.
Qed.

Ltac quiet_io_step :=
  first
    [ quiet_step
    | apply quiet_io; reflexivity
    | apply quiet_session_get | apply quiet_crawler_arun
    | apply quiet_get_next_proxy ].

Lemma quiet_is_downloadable url proxy : quiet (is_downloadable env url proxy).
Proof. unfold is_downloadable, log. repeat quiet_io_step. Qed.

Lemma quiet_stream_body filepath chunks : quiet (stream_body env filepath chunks).
Proof.
  induction chunks as [|[|[|x c]] rest IH]; cbn [stream_body];
    unfold write; repeat quiet_io_step.
Qed.

Lemma quiet_download_file url proxy output_dir map_file :
  quiet (download_file env url proxy output_dir map_file).
Proof.
  unfold download_file, download_body, download_filename, makedirs,
    open_write, open_append, append, log.
  repeat first [apply quiet_stream_body | quiet_io_step].
Qed.

Lemma quiet_retry_loop url left : forall a, quiet (retry_loop env url left a).
Proof.
  induction left as [|left IH]; intros a; cbn [retry_loop];
    unfold log, sleep; repeat first [apply IH | quiet_io_step].
Qed.

Lemma quiet_crawl_url url : quiet (crawl_url env url).
Proof.
  unfold crawl_url, fetch_with_retry, log.
  repeat first [apply quiet_retry_loop | apply quiet_is_downloadable
               | apply quiet_download_file | quiet_io_step].
Qed.

Lemma quiet_mapM {A B} (f : A -> M B) l :
  (forall a, quiet (f a)) -> quiet (mapM f l).
Proof.
  intros Hf. induction l as [|a l IH]; cbn [mapM]; repeat quiet_step.
  apply Hf.
Qed.

Lemma quiet_select_urls visited urls : quiet (select_urls env visited urls).
Proof. induction urls as [|u urls IH]; cbn [select_urls]; repeat quiet_step. Qed.

Lemma quiet_fold_links bd visited links :
  forall next, quiet (fold_links env bd visited next links).
Proof.
  induction links as [|href links IH]; intros next; cbn [fold_links];
    repeat first [apply IH | quiet_step].
Qed.

Lemma quiet_save_markdown r : quiet (save_markdown env r).
Proof.
  unfold save_markdown, makedirs, open_write, write. repeat quiet_io_step.
Qed.

Lemma quiet_fold_results bd results :
  forall visited next, quiet (fold_results env bd visited next results).
Proof.
  induction results as [|[r|] results IH]; intros visited next;
    cbn [fold_results]; unfold log;
    repeat first [apply IH | apply quiet_fold_links | apply quiet_save_markdown
                 | quiet_step].
Qed.

Lemma quiet_base_domain_of start_urls : quiet (base_domain_of env start_urls).
Proof. unfold base_domain_of. repeat quiet_step. Qed.

Lemma bind_of_option {A B} (o : option A) (k : A -> M B) w :
  bind (of_option o) k w = match o with
                           | Some a => k a w
                           | None => (Raised ValueError, w)
                           end.
Proof. by destruct o. Qed.

Lemma select_urls_fresh visited urls w sel w' :
  select_urls env visited urls w = (Ok sel, w') ->
  forall u, u ∈ sel -> u ∉ visited.
Proof.
  revert sel. induction urls as [|url urls IH]; intros sel; cbn [select_urls].
  - intros [= <- _] u Hu. by apply elem_of_nil in Hu.
  - rewrite bind_of_option. destruct (normalize env url) as [n|]; [|done].
    case_bool_decide as Hn; [apply IH|].
    rewrite bind_of_option, bind_eq.
    destruct (select_urls env visited urls w) as [[ns|e] w1]; [|done].
    intros [= <- <-] u Hu. apply elem_of_cons in Hu as [->|Hu].
    + done.
    + by eapply IH.
Qed.

Lemma fold_links_next bd visited links : forall next w nx w',
  fold_links env bd visited next links w = (Ok nx, w') ->
  forall u, u ∈ nx -> u ∈ next \/ host_of env u = Some bd.
Proof.
  induction links as [|href links IH]; intros next w nx w'; cbn [fold_links].
  - intros [= <- _] u Hu. by left.
  - rewrite bind_of_option. destruct (normalize env href) as [next_url|];
      [|done].
    rewrite bind_of_option.
    destruct (urlparse (bracket_check env) next_url) as [p|] eqn:Hp; [|done].
    destruct (str_eqb (lower (netloc p)) bd) eqn:Hbd; cbn [andb].
    + destruct (negb _).
      * intros Hrun u Hu. destruct (IH _ _ _ _ Hrun u Hu) as [Hin|Hh];
          [|by right].
        apply elem_of_union in Hin as [Hin|Hin]; [|by left].
        apply elem_of_singleton in Hin as ->. right.
        unfold host_of. rewrite Hp. cbn.
        unfold str_eqb in Hbd. apply bool_decide_eq_true in Hbd. by rewrite Hbd.
      * apply IH.
    + apply IH.
Qed.

(* links that all lie off the domain leave the frontier as it was *)
Lemma fold_links_off_domain bd visited links : forall next w nx w',
  (forall href n, href ∈ links -> normalize env href = Some n ->
                  host_of env n ≠ Some bd) ->
  fold_links env bd visited next links w = (Ok nx, w') ->
  nx = next.
Proof.
  induction links as [|href links IH]; intros next w nx w' Hoff;
    cbn [fold_links].
  - by intros [= <- _].
  - rewrite bind_of_option.
    destruct (normalize env href) as [next_url|] eqn:Hn; [|done].
    rewrite bind_of_option.
    destruct (urlparse (bracket_check env) next_url) as [p|] eqn:Hp; [|done].
    assert (Hlinks : forall href' n, href' ∈ links ->
              normalize env href' = Some n -> host_of env n ≠ Some bd).
    { intros href' n Hin. apply Hoff. by apply list_elem_of_further. }
    destruct (str_eqb (lower (netloc p)) bd) eqn:Hbd; cbn [andb];
      [|by apply IH].
    exfalso. apply (Hoff href next_url); [apply list_elem_of_here|done|].
    unfold host_of. rewrite Hp. cbn.
    unfold str_eqb in Hbd. apply bool_decide_eq_true in Hbd. by rewrite Hbd.
Qed.

Lemma result_urls_none results :
  result_urls env (None :: results) = result_urls env results.
Proof. reflexivity. Qed.

Lemma result_urls_some r n results :
  normalize env (r_url r) = Some n ->
  result_urls env (Some r :: results) = {[n]} ∪ result_urls env results.
Proof. intros Hn. unfold result_urls. cbn. by rewrite Hn. Qed.

Lemma union_shift (n : str) (V X : gset str) :
  {[n]} ∪ V ∪ X = V ∪ ({[n]} ∪ X).
Proof.
  apply set_eq. intros x. rewrite !elem_of_union, elem_of_singleton. tauto.
Qed.

(* the fold adds the normalized url of every result object to visited,
   and lets only URLs of the domain into the frontier *)
Lemma fold_results_spec bd results : forall visited next w v' nx w',
  fold_results env bd visited next results w = (Ok (v', nx), w') ->
  v' = visited ∪ result_urls env results /\
  forall u, u ∈ nx -> u ∈ next \/ host_of env u = Some bd.
Proof.
  induction results as [|[r|] results IH]; intros visited next w v' nx w';
    cbn [fold_results].
  - intros [= <- <- _]. split; [|by left].
    unfold result_urls. cbn. by rewrite union_empty_r_L.
  - rewrite bind_of_option.
    destruct (normalize env (r_url r)) as [n|] eqn:Hn; [|done].
    rewrite (result_urls_some r n results Hn).
    destruct (r_success r).
    + rewrite bind_eq. cbn [log emit]. rewrite bind_eq.
      destruct (save_markdown env r _) as [[[]|e] w2]; [|done].
      rewrite bind_eq.
      destruct (fold_links env bd _ next (r_links r) w2) as [[nx1|e] w3]
        eqn:Hlinks; [|done].
      intros Hrun. destruct (IH _ _ _ _ _ _ Hrun) as [-> Hnx].
      split; [apply union_shift|].
      intros u Hu. destruct (Hnx u Hu) as [Hin|Hh]; [|by right].
      by apply (fold_links_next _ _ _ _ _ _ _ Hlinks).
    + rewrite bind_eq. cbn [log emit].
      intros Hrun. destruct (IH _ _ _ _ _ _ Hrun) as [-> Hnx].
      split; [apply union_shift|done].
  - rewrite result_urls_none. apply IH.
Qed.

(* when every link of every successful result lies off the domain, the
   fold leaves the frontier as it was *)
Lemma fold_results_off_domain bd results : forall visited next w v' nx w',
  (forall r href n, Some r ∈ results -> r_success r = true ->
     href ∈ r_links r -> normalize env href = Some n ->
     host_of env n ≠ Some bd) ->
  fold_results env bd visited next results w = (Ok (v', nx), w') ->
  nx = next.
Proof.
  induction results as [|[r|] results IH]; intros visited next w v' nx w' Hoff;
    cbn [fold_results].
  - by intros [= _ <- _].
  - assert (Hrest : forall r' href n, Some r' ∈ results -> r_success r' = true ->
              href ∈ r_links r' -> normalize env href = Some n ->
              host_of env n ≠ Some bd).
    { intros r' href n Hin. apply Hoff. by apply list_elem_of_further. }
    rewrite bind_of_option.
    destruct (normalize env (r_url r)) as [n|] eqn:Hn; [|done].
    destruct (r_success r) eqn:Hs.
    + rewrite bind_eq. cbn [log emit]. rewrite bind_eq.
      destruct (save_markdown env r _) as [[[]|e] w2]; [|done].
      rewrite bind_eq.
      destruct (fold_links env bd _ next (r_links r) w2) as [[nx1|e] w3]
        eqn:Hlinks; [|done].
      apply fold_links_off_domain in Hlinks as ->.
      * by apply IH.
      * intros href n'. by apply (Hoff r); [apply list_elem_of_here|].
    + rewrite bind_eq. cbn [log emit]. by apply IH.
  - apply IH. intros r href n Hin. apply Hoff. by apply list_elem_of_further.
Qed.

Lemma base_domain_of_scope start_urls w bd w' :
  base_domain_of env start_urls w = (Ok bd, w') ->
  domain_scope env start_urls = Some bd.
Proof.
  unfold base_domain_of, domain_scope, host_of.
  destruct start_urls as [|first rest]; [done|].
  rewrite bind_of_option.
  destruct (urlparse (bracket_check env) first) as [p|]; [|done].
  by intros [= <- _].
Qed.

Lemma loop_trace_units scope V t1 t2 :
  unit_events t1 -> loop_trace env scope V t2 -> loop_trace env scope V (t1 ++ t2).
Proof.
  intros H1 H2. induction H1 as [|e t1 He _ IH]; [done|].
  cbn [app]. by destruct e.
Qed.

Lemma loop_trace_only_units scope V t :
  unit_events t -> loop_trace env scope V t.
Proof.
  intros Ht. rewrite <- (app_nil_r t). by apply loop_trace_units.
Qed.

(* the invariant of the loop *)
Lemma crawl_loop_trace start_urls left : forall depth visited current w,
  exists new,
    trace (snd (crawl_loop env start_urls left depth visited current w))
      = trace w ++ new /\
    loop_trace env (domain_scope env start_urls) visited new.
Proof.
  induction left as [|left IH]; intros depth visited current w;
    cbn [crawl_loop].
  { exists []. cbn. by rewrite app_nil_r. }
  rewrite bind_eq. cbn [log emit]. set (w0 := mkWorld _ _ _ _ _ _).
  rewrite bind_eq.
  destruct (quiet_select_urls visited (elements current) w0)
    as (n1 & H1 & U1).
  destruct (select_urls env visited (elements current) w0)
    as [[sel|e] w1] eqn:Hsel; cbn [snd] in H1.
  2:{ exists (EvLog (LogDepth (depth + 1)) :: n1). cbn [snd]. rewrite H1.
      subst w0. cbn [trace]. rewrite <- app_assoc. split; [done|].
      apply loop_trace_only_units. by constructor. }
  pose proof (select_urls_fresh _ _ _ _ _ Hsel) as Hfresh.
  destruct sel as [|u0 sel].
  { exists (EvLog (LogDepth (depth + 1)) :: n1). cbn [snd ret]. rewrite H1.
    subst w0. cbn [trace]. rewrite <- app_assoc. split; [done|].
    apply loop_trace_only_units. by constructor. }
  rewrite bind_eq. cbn [emit]. set (w2 := mkWorld _ _ _ _ _ _).
  rewrite bind_eq.
  destruct (quiet_mapM (crawl_url env) (u0 :: sel) quiet_crawl_url w2)
    as (n2 & H2 & U2).
  assert (Hpre : forall t, loop_trace env (domain_scope env start_urls) visited t
                 -> loop_trace env (domain_scope env start_urls) visited
                      ((EvLog (LogDepth (depth + 1)) :: n1) ++
                       EvWave (u0 :: sel) :: t)).
  { intros t Ht. apply loop_trace_units; [by constructor|]. by split. }
  assert (Htr2 : forall w3 t, trace w3 = trace w2 ++ t ->
            trace w3 = trace w ++ (EvLog (LogDepth (depth + 1)) :: n1) ++
                       EvWave (u0 :: sel) :: t).
  { intros w3 t ->. subst w2. cbn [trace]. rewrite H1. subst w0. cbn [trace].
    rewrite <- !app_assoc. reflexivity. }
  destruct (mapM (crawl_url env) (u0 :: sel) w2) as [[results|e] w3];
    cbn [snd] in H2.
  2:{ cbn [snd]. eexists. split; [apply (Htr2 _ _ H2)|]. apply Hpre.
      by apply loop_trace_only_units. }
  rewrite bind_eq.
  destruct (quiet_base_domain_of start_urls w3) as (n3 & H3 & U3).
  destruct (base_domain_of env start_urls w3) as [[bd|e] w4] eqn:Hbd;
    cbn [snd] in H3.
  2:{ cbn [snd]. eexists. split; [apply Htr2; rewrite H3, H2, <- app_assoc; reflexivity|].
      apply Hpre. apply loop_trace_only_units. by apply Forall_app. }
  apply base_domain_of_scope in Hbd.
  rewrite bind_eq.
  destruct (quiet_fold_results bd results visited ∅ w4) as (n4 & H4 & U4).
  destruct (fold_results env bd visited ∅ results w4) as [[[v' nx]|e] w5]
    eqn:Hfold; cbn [snd] in H4.
  2:{ cbn [snd]. eexists. split; [apply Htr2; rewrite H4, H3, H2, <- !app_assoc;
                       reflexivity|].
      apply Hpre. apply loop_trace_only_units. by repeat apply Forall_app_2. }
  apply fold_results_spec in Hfold as [Hv Hnx].
  rewrite bind_eq. cbn [emit]. set (w6 := mkWorld _ _ _ _ _ _).
  destruct (IH (Datatypes.S depth) v' nx w6) as (n5 & H5 & L5).
  eexists. split.
  { apply Htr2. rewrite H5. subst w6. cbn [trace].
    rewrite H4, H3, H2, <- !app_assoc. reflexivity. }
  apply Hpre. rewrite !app_assoc. rewrite <- app_assoc.
  apply loop_trace_units; [by repeat apply Forall_app_2|].
  cbn [app loop_trace]. split; [|split; [|done]].
  - rewrite Hv. apply union_subseteq_l.
  - intros u Hu. rewrite Hbd. destruct (Hnx u Hu) as [Hin|Hh]; [|done].
    by apply elem_of_empty in Hin.
Qed.

End LoopFacts.
(** * Properties of a whole run *)

Section CrawlFacts.
Variable env : Env.

Lemma loop_trace_wave scope urls t3 t2 : forall V,
  loop_trace env scope V (t2 ++ EvWave urls :: t3) ->
  forall u, u ∈ V -> u ∉ urls.
Proof.
  induction t2 as [|e t2 IH]; intros V Ht u Hu.
  - destruct Ht as [Hfresh _]. intros Hin. by apply (Hfresh u).
  - destruct e; cbn [app loop_trace] in Ht;
      try (by apply (IH V Ht)).
    + destruct Ht as [_ Ht]. by apply (IH V Ht).
    + destruct Ht as (Hsub & _ & Ht). apply (IH _ Ht). by apply Hsub.
Qed.

Lemma loop_trace_folded_wave scope v nx urls t2 t3 t1 : forall V,
  loop_trace env scope V (t1 ++ EvFolded v nx :: t2 ++ EvWave urls :: t3) ->
  forall u, u ∈ v -> u ∉ urls.
Proof.
  induction t1 as [|e t1 IH]; intros V Ht.
  - destruct Ht as (_ & _ & Ht). by apply (loop_trace_wave scope urls t3 t2).
  - destruct e; cbn [app loop_trace] in Ht; try (by apply (IH V Ht)).
    + destruct Ht as [_ Ht]. by apply (IH V Ht).
    + destruct Ht as (_ & _ & Ht). by apply (IH _ Ht).
Qed.

Lemma loop_trace_folded scope t : forall V v nx,
  loop_trace env scope V t -> EvFolded v nx ∈ t ->
  forall u, u ∈ nx -> host_of env u = scope /\ scope <> None.
Proof.
  induction t as [|e t IH]; intros V v nx Ht Hin.
  - by apply elem_of_nil in Hin.
  - apply elem_of_cons in Hin as [<-|Hin].
    + by destruct Ht as (_ & Hnx & _).
    + destruct e; cbn [loop_trace] in Ht; try (by apply (IH V v nx Ht)).
      * destruct Ht as [_ Ht]. by apply (IH V v nx Ht).
      * destruct Ht as (_ & _ & Ht). by apply (IH _ v nx Ht).
Qed.

(* the invariant holds of every run, also of one that raises *)
Lemma crawl_recursive_batch_trace start_urls max_depth w :
  loop_trace env (domain_scope env start_urls) ∅
    (since w (snd (crawl_recursive_batch env start_urls max_depth w))).
Proof.
  unfold crawl_recursive_batch. rewrite bind_eq.
  destruct (quiet_mapM (fun u => of_option (normalize env u)) start_urls
              (fun u => quiet_of_option _) w) as (n0 & H0 & U0).
  destruct (mapM _ start_urls w) as [[normalized|e] w0]; cbn [snd] in *.
  - destruct (crawl_loop_trace env start_urls max_depth 0 ∅
                (list_to_set normalized) w0) as (n1 & H1 & L1).
    erewrite since_app; [|rewrite H1, H0, <- app_assoc; reflexivity].
    by apply loop_trace_units.
  - rewrite (since_app _ _ _ H0). by apply loop_trace_only_units.
Qed.

(** C1, as the code has it: once a URL is in the visited set, which a
    fold enters for the normalized result.url of every result object, no
    later depth creates a task for it. *)
Theorem visited_never_refetched (start_urls : list str) (max_depth : nat)
    (w : World) (t1 t2 t3 : list Event) (v nx : gset str) (urls : list str) :
  since w (snd (crawl_recursive_batch env start_urls max_depth w))
    = t1 ++ EvFolded v nx :: t2 ++ EvWave urls :: t3 ->
  forall u, u ∈ v -> u ∉ urls.
Proof.
  intros Htrace.
  pose proof (crawl_recursive_batch_trace start_urls max_depth w) as Hinv.
  rewrite Htrace in Hinv.
  by apply (loop_trace_folded_wave _ v nx urls t2 t3 t1 ∅ Hinv).
Qed.

(** C2, as the code has it: the fold enters the normalized result.url of
    every result object into the visited set, whether the result reports
    success or not; a unit that returned None (after a download, and after
    the retries were exhausted) leaves no trace in the fold: no visited
    entry, no output, no links; a result that reports no success adds its
    visited entry and a log line only. *)
Theorem fold_results_visited (bd : str) (visited next : gset str)
    (results : list (option CrawlResult)) (w : World) :
  (forall v' nx w',
     fold_results env bd visited next results w = (Ok (v', nx), w') ->
     v' = visited ∪ result_urls env results) /\
  fold_results env bd visited next (None :: results) w
    = fold_results env bd visited next results w /\
  (forall r n,
     r_success r = false -> normalize env (r_url r) = Some n ->
     fold_results env bd visited next (Some r :: results) w
     = fold_results env bd ({[n]} ∪ visited) next results
         (mkWorld (trace w ++ [EvLog (LogError (r_url r) (r_error_message r))])
                  (n_rand w) (n_get w) (n_arun w) (n_io w) (files w))).
Proof.
  split; [|split].
  - intros v' nx w' Hrun. by apply fold_results_spec in Hrun as [-> _].
  - reflexivity.
  - intros r n Hs Hn. cbn [fold_results]. rewrite bind_of_option, Hn, Hs.
    reflexivity.
Qed.

Lemma crawl_loop_empty_frontier start_urls left depth visited w :
  crawl_loop env start_urls (Datatypes.S left) depth visited ∅ w =
  (Ok visited,
   mkWorld (trace w ++ [EvLog (LogDepth (depth + 1))]) (n_rand w) (n_get w)
           (n_arun w) (n_io w) (files w)).
Proof. cbn [crawl_loop]. rewrite bind_eq. cbn [log emit]. by rewrite bind_eq, elements_empty. Qed.

(** C7: every URL that a fold passes on to the next depth has the host
    (netloc, lower-cased) of the first seed URL; links of another host are
    dropped, so when the successful pages of a depth link off the domain
    only, the next frontier is empty, and the loop, entered with an empty
    frontier, stops without creating a task. *)
Theorem frontier_within_domain_scope (start_urls : list str)
    (max_depth : nat) (w : World) :
  (forall v nx,
     EvFolded v nx ∈
       since w (snd (crawl_recursive_batch env start_urls max_depth w)) ->
     forall u, u ∈ nx ->
       host_of env u = domain_scope env start_urls /\
       domain_scope env start_urls <> None) /\
  (forall bd visited results w1 v' nx w',
     (forall r href n, Some r ∈ results -> r_success r = true ->
        href ∈ r_links r -> normalize env href = Some n ->
        host_of env n ≠ Some bd) ->
     fold_results env bd visited ∅ results w1 = (Ok (v', nx), w') ->
     nx = ∅) /\
  (forall left depth visited w1,
     exists w',
       crawl_loop env start_urls left depth visited ∅ w1 = (Ok visited, w') /\
       fetched (since w1 w') = [] /\
       List.filter is_render (since w1 w') = []).
Proof.
  split; [|split].
  - intros v nx Hin.
    eapply loop_trace_folded; [apply crawl_recursive_batch_trace|exact Hin].
  - intros bd visited results w1 v' nx w' Hoff Hrun.
    by apply (fold_results_off_domain env bd results visited ∅ w1 v' nx w').
  - intros [|left] depth visited w1.
    + exists w1. split; [done|]. unfold since. by rewrite drop_all.
    + rewrite crawl_loop_empty_frontier. eexists. split; [reflexivity|].
      by erewrite since_app by reflexivity.
Qed.

End CrawlFacts.
(** * Facts about the string primitives *)

(* a fact about every character, checked on the 256 of them *)
Ltac by_cases_on_char c :=
  destruct c as [[] [] [] [] [] [] [] []]; vm_compute; try reflexivity;
  try discriminate; intuition (try discriminate; try congruence).


Lemma is_alpha_lower_char c : is_alpha (lower_char c) = is_alpha c.
Proof. by_cases_on_char c. Qed.






(* lower-casing does not produce, nor remove, a character that is not a
   letter *)
Lemma eqb_lower_char c x :
  is_alpha c = false -> Ascii.eqb c (lower_char x) = Ascii.eqb c x.
Proof.
  intros Hc. destruct (is_upper x) eqn:Hx.
  - transitivity false.
    + apply Ascii.eqb_neq. intros ->. rewrite is_alpha_lower_char in Hc.
      unfold is_alpha in Hc. by rewrite Hx in Hc.
    + symmetry. apply Ascii.eqb_neq. intros ->.
      unfold is_alpha in Hc. by rewrite Hx in Hc.
  - unfold lower_char. by rewrite Hx.
Qed.




Lemma delim_not_unsafe c : is_delim c = true -> is_unsafe c = false.
Proof. by_cases_on_char c. Qed.


Lemma alpha_scheme_char c : is_alpha c = true -> is_scheme_char c = true.
Proof. by_cases_on_char c. Qed.



(** ** lower *)

Lemma lower_app a b : lower (a ++ b) = lower a ++ lower b.
Proof. apply map_app. Qed.



(** ** mem *)

Lemma mem_app c a b : mem c (a ++ b) = mem c a || mem c b.
Proof. apply existsb_app. Qed.

Lemma mem_cons c x s : mem c (x :: s) = Ascii.eqb c x || mem c s.
Proof. reflexivity. Qed.

Lemma mem_lower c s : is_alpha c = false -> mem c (lower s) = mem c s.
Proof.
  intros Hc. induction s as [|x s IH]; [done|].
  cbn [lower map]. rewrite !mem_cons. fold (lower s).
  by rewrite IH, eqb_lower_char.
Qed.


Lemma mem_false_forallb c s :
  mem c s = false <-> forallb (fun x => negb (Ascii.eqb c x)) s = true.
Proof.
  induction s as [|x s IH]; [done|]. rewrite mem_cons. cbn [forallb].
  rewrite orb_false_iff, andb_true_iff, negb_true_iff. by rewrite IH.
Qed.

(** ** startswith *)

Lemma startswith_inv p s : startswith p s = true -> exists t, s = p ++ t.
Proof.
  revert s. induction p as [|c p IH]; intros s H; [by exists s|].
  destruct s as [|x s]; [done|]. cbn in H.
  apply andb_true_iff in H as [Hc Hp]. apply Ascii.eqb_eq in Hc as ->.
  destruct (IH s Hp) as [t ->]. by exists t.
Qed.


(** ** split_first *)

Lemma split_first_app c a b :
  mem c a = false -> split_first c (a ++ c :: b) = Some (a, b).
Proof.
  induction a as [|x a IH]; intros Hc; cbn.
  - by rewrite Ascii.eqb_refl.
  - rewrite mem_cons in Hc. apply orb_false_iff in Hc as [Hx Ha].
    rewrite Ascii.eqb_sym, Hx. by rewrite IH.
Qed.

Lemma split_first_none c s : mem c s = false -> split_first c s = None.
Proof.
  induction s as [|x s IH]; intros Hc; [done|]. cbn.
  rewrite mem_cons in Hc. apply orb_false_iff in Hc as [Hx Hs].
  rewrite Ascii.eqb_sym, Hx. by rewrite IH.
Qed.

Lemma split_first_some c s a b :
  split_first c s = Some (a, b) -> s = a ++ c :: b /\ mem c a = false.
Proof.
  revert a. induction s as [|x s IH]; intros a; [done|]. cbn.
  destruct (Ascii.eqb x c) eqn:Hx.
  - apply Ascii.eqb_eq in Hx as ->. by intros [= <- <-].
  - destruct (split_first c s) as [[a' b']|]; [|done].
    intros [= <- <-]. destruct (IH a' eq_refl) as [-> Ha].
    split; [done|]. unfold mem in *. cbn [existsb].
    by rewrite (Ascii.eqb_sym c x), Hx.
Qed.

Lemma split_first_none_inv c s : split_first c s = None -> mem c s = false.
Proof.
  induction s as [|x s IH]; [done|]. cbn [split_first].
  destruct (Ascii.eqb x c) eqn:Hx; [done|].
  destruct (split_first c s) as [[a b]|]; [done|].
  intros _. rewrite mem_cons, Ascii.eqb_sym, Hx. by apply IH.
Qed.



(* what split_on returns, in both cases *)
Lemma split_on_spec c s a b :
  split_on c s = (a, b) ->
  mem c a = false /\ (s = a /\ b = [] \/ s = a ++ c :: b).
Proof.
  unfold split_on. destruct (split_first c s) as [[a' b']|] eqn:H.
  - intros [= <- <-]. apply split_first_some in H as [-> Ha]. by split; [|right].
  - intros [= <- <-]. apply split_first_none_inv in H. by split; [|left].
Qed.

(** ** span_until *)


Lemma span_until_spec (p : ascii -> bool) s a b :
  span_until p s = (a, b) ->
  s = a ++ b /\ forallb (fun c => negb (p c)) a = true /\
  (b = [] \/ exists c b', b = c :: b' /\ p c = true).
Proof.
  revert a. induction s as [|x s IH]; intros a; cbn.
  - intros [= <- <-]. by repeat split; [left].
  - destruct (p x) eqn:Hx.
    + intros [= <- <-]. repeat split. right. by exists x, s.
    + destruct (span_until p s) as [a' b']. intros [= <- <-].
      destruct (IH a' eq_refl) as (-> & Ha & Hb).
      repeat split; [|done]. cbn. by rewrite Hx.
Qed.
(** * Facts about urlsplit and urlunsplit *)

(** ** rstrip *)

Lemma rstrip_cons (p : ascii -> bool) c s :
  rstrip p (c :: s) =
  if bool_decide (rstrip p s = []) && p c then [] else c :: rstrip p s.
Proof.
  cbn [rstrip]. destruct (rstrip p s) as [|x t] eqn:H; [|done].
  cbn. by destruct (p c).
Qed.

Lemma rstrip_nil_forallb (p : ascii -> bool) s :
  rstrip p s = [] <-> forallb p s = true.
Proof.
  induction s as [|c s IH]; [done|]. rewrite rstrip_cons. cbn [forallb].
  rewrite andb_true_iff, <- IH. case_bool_decide as H; cbn.
  - destruct (p c); [|split; [done|intros [? _]; done]]. by split.
  - split; [done|]. by intros [_ ?].
Qed.

(* s is what rstrip leaves, followed by stripped characters *)
Lemma rstrip_prefix (p : ascii -> bool) s :
  exists t, s = rstrip p s ++ t /\ forallb p t = true.
Proof.
  induction s as [|c s (t & Hs & Ht)].
  - by exists [].
  - rewrite rstrip_cons. case_bool_decide as H; [destruct (p c) eqn:Hc|]; cbn.
    + exists (c :: s). split; [done|]. cbn. rewrite Hc.
      by apply rstrip_nil_forallb.
    + exists t. by rewrite <- Hs.
    + exists t. by rewrite <- Hs.
Qed.





Lemma mem_rstrip c (p : ascii -> bool) s :
  mem c s = false -> mem c (rstrip p s) = false.
Proof.
  destruct (rstrip_prefix p s) as (t & Hs & _). intros H.
  rewrite Hs, mem_app in H. by apply orb_false_iff in H as [? _].
Qed.



(** ** The first two steps of urlsplit *)

Lemma urlsplit_eq check u : urlsplit check u = urlsplit_clean check (clean_url u).
Proof. reflexivity. Qed.







Lemma mem_lstrip c (p : ascii -> bool) s :
  mem c (lstrip p s) = true -> mem c s = true.
Proof.
  induction s as [|x s IH]; [done|]. cbn [lstrip].
  destruct (p x); [|done]. intros H. rewrite mem_cons, (IH H).
  apply orb_true_r.
Qed.

Lemma mem_clean_url c u : mem c (clean_url u) = true -> mem c u = true.
Proof.
  unfold clean_url, remove_unsafe. intros H.
  apply (mem_lstrip c is_c0_or_space). unfold mem in *.
  apply existsb_exists in H as (x & Hx & Hc). apply existsb_exists.
  exists x. split; [|done]. apply filter_In in Hx. tauto.
Qed.

(** ** safe *)




(** ** The scheme *)



Lemma split_scheme_spec u s rest :
  split_scheme u = (s, rest) ->
  (s = [] /\ rest = u) \/
  (exists s0, s0 <> [] /\ scheme_chars_ok s0 = true /\ s = lower s0 /\
              u = s0 ++ ":" :: rest).
Proof.
  unfold split_scheme.
  destruct (split_first ":" u) as [[[|c pre] rest']|] eqn:H;
    [by intros [= <- <-]; left| |by intros [= <- <-]; left].
  destruct (is_alpha c && forallb is_scheme_char (c :: pre)) eqn:Hok;
    [|by intros [= <- <-]; left].
  intros [= <- <-]. right. exists (c :: pre).
  apply split_first_some in H as [-> _]. by repeat split.
Qed.


Lemma split_first_app_notin c p tail :
  mem c p = false ->
  split_first c (p ++ tail) =
  match split_first c tail with
  | Some (a, b) => Some (p ++ a, b)
  | None => None
  end.
Proof.
  induction p as [|x p IH]; intros Hc; cbn [app].
  - by destruct (split_first c tail) as [[a b]|].
  - rewrite mem_cons in Hc. apply orb_false_iff in Hc as [Hx Hp].
    cbn [split_first]. rewrite Ascii.eqb_sym, Hx, (IH Hp).
    by destruct (split_first c tail) as [[a b]|].
Qed.



(** ** The netloc *)


Lemma netloc_ok_nil check : netloc_ok check [] = true.
Proof. reflexivity. Qed.

(** ** urlsplit of an assembled URL *)





Lemma str_eqb_nil_false s : s <> [] -> str_eqb s [] = false.
Proof. intros H. unfold str_eqb. by apply bool_decide_eq_false. Qed.

Lemma str_eqb_nil_true s : str_eqb s [] = true -> s = [].
Proof. unfold str_eqb. apply bool_decide_eq_true. Qed.

Lemma str_eqb_refl s : str_eqb s s = true.
Proof. unfold str_eqb. by apply bool_decide_eq_true. Qed.


Section SplitFacts.
Variable check : str -> bool.



End SplitFacts.

Lemma urlunsplit_assemble r :
  urlunsplit r =
  assemble (s_scheme r) (s_netloc r)
           (slash_fix (s_scheme r) (s_netloc r) (s_path r))
           (s_query r) (s_fragment r)
           (has_net (s_scheme r) (s_netloc r) (s_path r)).
Proof.
  destruct r as [s n p q f]. unfold urlunsplit, assemble, slash_fix, has_net.
  cbn [s_scheme s_netloc s_path s_query s_fragment].
  destruct (str_eqb n []), (str_eqb s []), (in_list s uses_netloc),
    (startswith (py "//") p), (str_eqb p []), (startswith (py "/") p),
    (str_eqb q []), (str_eqb f []); cbn [negb orb andb];
    rewrite <- ?app_assoc, ?app_nil_r; cbn [app]; rewrite <- ?app_assoc;
    try reflexivity.
Qed.


Section SplitFacts2.
Variable check : str -> bool.


End SplitFacts2.
(** * Facts about normalize_url *)



Lemma slash_fix_cases s n p :
  slash_fix s n p = p \/
  (slash_fix s n p = "/" :: p /\ has_net s n p = true /\ p <> [] /\
   startswith (py "/") p = false).
Proof.
  unfold slash_fix. destruct (has_net s n p); [|by left]. cbn [andb].
  destruct (str_eqb p []) eqn:Hp; [by left|]. cbn [negb andb].
  destruct (startswith (py "/") p) eqn:Hs; [by left|]. right.
  repeat split. intros ->. by rewrite str_eqb_refl in Hp.
Qed.


Lemma startswith_slashes_cons p :
  startswith (py "/") p = false -> startswith (py "//") ("/" :: p) = false.
Proof.
  change (py "/") with ["/"]. change (py "//") with ["/"; "/"].
  cbn [startswith]. by rewrite Ascii.eqb_refl.
Qed.

Lemma startswith_slash_slashes p :
  startswith (py "/") p = false -> startswith (py "//") p = false.
Proof.
  change (py "/") with ["/"]. change (py "//") with ["/"; "/"].
  destruct p as [|c p]; [done|]. cbn [startswith].
  rewrite andb_true_r. by intros ->.
Qed.

(* the path that urlunsplit writes starts with "//" only if p does *)
Lemma slash_fix_slashes s n p :
  startswith (py "//") (slash_fix s n p) = startswith (py "//") p.
Proof.
  destruct (slash_fix_cases s n p) as [->|(-> & _ & _ & H)]; [done|].
  by rewrite startswith_slashes_cons, startswith_slash_slashes.
Qed.

Lemma has_net_slash_fix s n p :
  has_net s n (slash_fix s n p) = has_net s n p.
Proof. unfold has_net. by rewrite slash_fix_slashes. Qed.

Lemma mem_slash_fix c s n p :
  c <> "/" -> mem c (slash_fix s n p) = mem c p.
Proof.
  intros Hc. destruct (slash_fix_cases s n p) as [->|(-> & _)]; [done|].
  rewrite mem_cons. by apply Ascii.eqb_neq in Hc as ->.
Qed.




Section NormalizeFacts.
Variable check : str -> bool.




Hypothesis check_lower : forall n, check n = true -> check (lower n) = true.







Lemma norm_split_fragment s n p q f :
  norm_split (mkSplit s n p q f) = norm_split (mkSplit s n p q []).
Proof. reflexivity. Qed.



End NormalizeFacts.
(** * normalize_url: what the specification says of it *)

Lemma split_last_app c s a b : split_last c s = Some (a, b) -> s = a ++ b.
Proof.
  revert a. induction s as [|x s IH]; intros a; [done|]. cbn [split_last].
  destruct (split_last c s) as [[a' b']|].
  - intros [= <- <-]. by rewrite (IH a' eq_refl).
  - destruct (Ascii.eqb x c); [|done]. by intros [= <- <-].
Qed.

Lemma mem_removelast c s : mem c s = false -> mem c (removelast s) = false.
Proof.
  induction s as [|x s IH]; [done|]. cbn [removelast].
  destruct s as [|y s]; [done|]. rewrite !(mem_cons c x).
  intros H. apply orb_false_iff in H as [-> H]. by rewrite IH.
Qed.

Lemma splitparams_mem c url a b :
  splitparams url = (a, b) -> mem c url = false ->
  mem c a = false /\ mem c b = false.
Proof.
  unfold splitparams. intros H Hc.
  destruct (split_last "/" url) as [[dir seg]|] eqn:Hl.
  - apply split_last_app in Hl as ->. rewrite mem_app in Hc.
    apply orb_false_iff in Hc as [Hd Hs].
    destruct (split_first ";" seg) as [[a' b']|] eqn:Hf.
    + injection H as <- <-. apply split_first_some in Hf as [-> _].
      rewrite mem_app, mem_cons in Hs. apply orb_false_iff in Hs as [Ha Hb].
      apply orb_false_iff in Hb as [_ Hb]. by rewrite mem_app, Hd, Ha.
    + injection H as <- <-. by rewrite mem_app, Hd, Hs.
  - destruct (split_first ";" url) as [[a' b']|] eqn:Hf.
    + injection H as <- <-. apply split_first_some in Hf as [-> _].
      rewrite mem_app, mem_cons in Hc. apply orb_false_iff in Hc as [Ha Hb].
      by apply orb_false_iff in Hb as [_ Hb].
    + injection H as <- <-. split; [by apply mem_removelast|done].
Qed.








Section NormalizeClaims.
Variable check : str -> bool.






End NormalizeClaims.

Section NormalizeTheorems.
Variable check : str -> bool.



End NormalizeTheorems.

Section Idempotence.
Variable check : str -> bool.
Hypothesis check_lower : forall n, check n = true -> check (lower n) = true.



End Idempotence.
(** * File names and proxies *)

Lemma is_safe_char_underscore : is_safe_char "_" = true.
Proof. reflexivity. Qed.

Lemma safe_char_not_slash c : is_safe_char c = true -> Ascii.eqb "/" c = false.
Proof. by_cases_on_char c. Qed.

(** X1: safe_filename keeps the length of the URL and returns only
    letters, digits, "_" and "-": the name holds no "/", so the markdown
    file lies directly in output/; it changes nothing in a string that is
    safe already, and a second pass changes nothing. *)
Theorem safe_filename_safe (url : str) :
  length (safe_filename url) = length url /\
  forallb is_safe_char (safe_filename url) = true /\
  mem "/" (safe_filename url) = false /\
  safe_filename (safe_filename url) = safe_filename url /\
  (forallb is_safe_char url = true -> safe_filename url = url).
Proof.
  assert (Hsafe : forallb is_safe_char (safe_filename url) = true).
  { unfold safe_filename. induction url as [|c url IH]; [done|]. cbn.
    rewrite IH, andb_true_r. destruct (is_safe_char c) eqn:Hc; [done|].
    reflexivity. }
  assert (Hfix : forall s, forallb is_safe_char s = true -> safe_filename s = s).
  { unfold safe_filename. induction s as [|c s IH]; [done|]. cbn.
    intros H. apply andb_true_iff in H as [-> Hs]. by rewrite IH. }
  split; [apply length_map|]. split; [done|]. split; [|split; [by apply Hfix|apply Hfix]].
  revert Hsafe. generalize (safe_filename url) as s.
  induction s as [|c s IH]; [done|]. cbn [forallb]. intros H.
  apply andb_true_iff in H as [Hc Hs].
  by rewrite mem_cons, (safe_char_not_slash c Hc), IH.
Qed.

(** ** split_char *)







Lemma parse_proxies_spec lines ps :
  parse_proxies lines = Ok ps <-> map parse_proxy lines = map Some ps.
Proof.
  revert ps. induction lines as [|l lines IH]; intros ps; cbn.
  - split; [by intros [= <-]|]. by destruct ps.
  - destruct (parse_proxy l) as [p|]; [|split; [done|by destruct ps]].
    destruct (parse_proxies lines) as [ps'|e].
    + split.
      * intros [= <-]. cbn. f_equal. by apply IH.
      * destruct ps as [|p0 ps0]; [done|]. cbn. intros [= -> H].
        apply IH in H. by injection H as ->.
    + split; [done|]. destruct ps as [|p0 ps0]; [done|]. cbn.
      intros [= -> H]. by apply IH in H.
Qed.

(** X3: load_proxies returns the empty list without looking at the file
    when USE_PROXIES is off (as the source sets it); when it is on, it
    returns one ProxyConfig for every line, in the order of the file, and
    raises as soon as one line does not parse. *)
Theorem load_proxies_lines (file : option (list str)) (lines : list str) :
  load_proxies false file = Ok [] /\
  (forall ps, load_proxies true (Some lines) = Ok ps <->
              map parse_proxy lines = map Some ps) /\
  (forall line, line ∈ lines -> parse_proxy line = None ->
                load_proxies true (Some lines) = Raised ValueError).
Proof.
  split; [done|]. split; [intros ps; apply parse_proxies_spec|].
  intros line Hin Hbad. cbn. induction lines as [|l lines IH].
  - by apply elem_of_nil in Hin.
  - cbn. apply elem_of_cons in Hin as [<-|Hin]; [by rewrite Hbad|].
    destruct (parse_proxy l); [|done]. by rewrite (IH Hin).
Qed.

(** X4: get_next_proxy returns None exactly when proxies are switched
    off or the list is empty, and then draws no random number; otherwise
    it returns one of the configured proxies.  It never raises and leaves
    the files alone. *)
Theorem get_next_proxy_choice (env : Env) (w : World) :
  exists p w',
    get_next_proxy env w = (Ok p, w') /\ since w w' = [EvProxy p] /\
    files w' = files w /\
    (USE_PROXIES env = false \/ proxies env = [] ->
     p = None /\ n_rand w' = n_rand w) /\
    (USE_PROXIES env = true -> proxies env <> [] ->
     exists q, p = Some q /\ q ∈ proxies env).
Proof.
  unfold get_next_proxy.
  destruct (negb (USE_PROXIES env) || bool_decide (proxies env = [])) eqn:E.
  - eexists _, _. split; [reflexivity|]. split; [by apply since_app|].
    split; [done|]. split; [done|]. intros Hu Hp.
    rewrite Hu in E. cbn in E. by apply bool_decide_eq_true in E.
  - apply orb_false_iff in E as [Hu Hp]. apply negb_false_iff in Hu.
    apply bool_decide_eq_false in Hp.
    eexists _, _. split; [reflexivity|]. split; [by apply since_app|].
    split; [done|]. split.
    + intros [H|H]; congruence.
    + intros _ _.
      destruct (lookup_lt_is_Some_2 (proxies env)
                  (random_choice env (n_rand w) mod length (proxies env)))
        as [q Hq].
      * apply Nat.mod_upper_bound. by destruct (proxies env).
      * exists q. split; [done|]. by apply (list_elem_of_lookup_2 _ _ _ Hq).
Qed.

(** ** Substrings *)

Lemma contains_app sub pre post : contains sub (pre ++ sub ++ post) = true.
Proof.
  induction pre as [|c pre IH]; cbn [app].
  - destruct (sub ++ post) eqn:E; cbn [contains];
      rewrite <- E, startswith_app; reflexivity.
  - cbn [contains]. by rewrite IH, orb_true_r.
Qed.

Lemma contains_inv sub s :
  contains sub s = true -> exists pre post, s = pre ++ sub ++ post.
Proof.
  induction s as [|c s IH]; cbn [contains]; intros H.
  - rewrite orb_false_r in H. apply startswith_inv in H as [t ->].
    by exists [], t.
  - apply orb_true_iff in H as [H|H].
    + apply startswith_inv in H as [t ->]. by exists [], t.
    + destruct (IH H) as (pre & post & ->). by exists (c :: pre), post.
Qed.






(** * More about the classifier and the downloader *)

Lemma split_last_spec c s a b :
  split_last c s = Some (a, b) ->
  s = a ++ b /\ exists t, b = c :: t /\ mem c t = false.
Proof.
  revert a. induction s as [|x s IH]; intros a; [done|]. cbn [split_last].
  destruct (split_last c s) as [[a' b']|] eqn:Hl.
  - intros [= <- <-]. destruct (IH a' eq_refl) as (-> & t & -> & Ht).
    split; [done|]. by exists t.
  - destruct (Ascii.eqb x c) eqn:Hx; [|done]. intros [= <- <-].
    apply Ascii.eqb_eq in Hx as ->. split; [done|]. exists s. split; [done|].
    clear IH. induction s as [|y s IH]; [done|]. cbn [split_last] in Hl.
    destruct (split_last c s) as [[a' b']|]; [done|].
    destruct (Ascii.eqb y c) eqn:Hy; [done|].
    by rewrite mem_cons, Ascii.eqb_sym, Hy, IH.
Qed.

Lemma basename_no_slash p : mem "/" (basename p) = false.
Proof.
  unfold basename. destruct (split_last "/" p) as [[a b]|] eqn:H.
  - apply split_last_spec in H as (_ & t & -> & Ht). done.
  - clear -H. induction p as [|y p IH]; [done|]. cbn [split_last] in H.
    destruct (split_last "/" p) as [[a' b']|]; [done|].
    destruct (Ascii.eqb y "/") eqn:Hy; [done|].
    by rewrite mem_cons, Ascii.eqb_sym, Hy, IH.
Qed.




Section ClassifyDownload.
Variable env : Env.

(** X6: is_downloadable never raises and sends at most one request.  For
    a URL without a download extension whose probe is answered, it sends
    exactly that request and answers True exactly when the
    Content-Disposition, lower-cased, holds "attachment" or the
    Content-Type, lower-cased, holds one of application/pdf,
    application/msword, application/vnd, text/plain as a substring. *)
Theorem is_downloadable_headers (url : str) (proxy : option str) (w : World) :
  (exists b w',
     is_downloadable env url proxy w = (Ok b, w') /\
     length (List.filter is_get (since w w')) <= 1) /\
  (forall resp,
     has_download_extension url = false ->
     http_get env (n_get w) url proxy = GetReturns resp ->
     exists b,
       is_downloadable env url proxy w =
         (Ok b, mkWorld (trace w ++ [EvGet url proxy 10]) (n_rand w)
                        (Datatypes.S (n_get w)) (n_arun w) (n_io w) (files w))
       /\ (b = true <->
           (exists pre post,
              lower (header (content_disposition resp))
              = pre ++ py "attachment" ++ post)
           \/ (exists mime pre post,
                 mime ∈ DOWNLOAD_MIMES /\
                 lower (header (content_type resp)) = pre ++ mime ++ post))).
Proof.
  split.
  - unfold is_downloadable. destruct (has_download_extension url).
    { exists true, w. split; [done|]. unfold since. rewrite drop_all. cbn. lia. }
    unfold try_except, bind, session_get.
    destruct (http_get env (n_get w) url proxy) as [|resp].
    + eexists _, _. split; [reflexivity|].
      erewrite since_app; [|cbn; rewrite <- app_assoc; reflexivity]. cbn. lia.
    + eexists _, _. split; [reflexivity|].
      erewrite since_app; [|cbn; reflexivity]. cbn. lia.
  - intros resp Hext Hget. unfold is_downloadable. rewrite Hext.
    unfold try_except, bind, session_get. rewrite Hget. cbn [ret].
    eexists. split; [reflexivity|]. rewrite orb_true_iff. split.
    + intros [H|H]; [left; by apply contains_inv|right].
      apply existsb_exists in H as (mime & Hin & Hc).
      apply contains_inv in Hc as (pre & post & Hc).
      exists mime, pre, post. split; [by apply list_elem_of_In|done].
    + intros [(pre & post & ->)|(mime & pre & post & Hin & ->)].
      * left. apply contains_app.
      * right. apply existsb_exists. exists mime.
        split; [by apply list_elem_of_In|]. apply contains_app.
Qed.

(** X7: when the response names no file (its Content-Disposition does not
    hold filename=), the name of the download is the last segment of the
    URL's path, or downloaded_file when that is empty: it is never empty
    and holds no "/", so with the default directory the file lies directly
    in output/docs; query and fragment take no part in it; the world is
    not touched. *)
Theorem download_filename_from_path (url : str) (resp : Response)
    (w w' : World) (filename : str) :
  contains (py "filename=") (header (content_disposition resp)) = false ->
  download_filename env url resp w = (Ok filename, w') ->
  w' = w /\ filename <> [] /\ mem "/" filename = false /\
  path_join (py "output/docs") filename = py "output/docs/" ++ filename /\
  exists p,
    urlparse (bracket_check env) url = Some p /\
    filename = (if str_eqb (basename (path p)) [] then py "downloaded_file"
                else basename (path p)).
Proof.
  intros Hcd. unfold download_filename. rewrite Hcd, bind_of_option.
  destruct (urlparse (bracket_check env) url) as [p|]; [|done].
  intros [= <- <-]. split; [done|].
  assert (Hname : forall name, name <> [] -> mem "/" name = false ->
            path_join (py "output/docs") name = py "output/docs/" ++ name).
  { intros name Hne Hs. unfold path_join.
    replace (startswith (py "/") name) with false; [done|].
    destruct name as [|c name]; [done|]. change (py "/") with ["/"].
    cbn [startswith]. rewrite mem_cons in Hs.
    apply orb_false_iff in Hs as [-> _]. done. }
  destruct (str_eqb (basename (path p)) []) eqn:Hb.
  - split; [done|]. split; [done|]. split; [by apply Hname|]. exists p.
    by rewrite Hb.
  - assert (Hne : basename (path p) <> []).
    { intros H. rewrite H in Hb. by rewrite str_eqb_refl in Hb. }
    split; [done|]. split; [apply basename_no_slash|].
    split; [apply Hname; [done|apply basename_no_slash]|].
    exists p. by rewrite Hb.
Qed.


End ClassifyDownload.
(** * What a computation adds to the trace *)

Lemma avoids_closed f : closed (avoids f).
Proof. split; [constructor|]. intros x y. apply Forall_app_2. Qed.

Lemma within_app g1 r1 s1 g2 r2 s2 x y :
  within g1 r1 s1 x -> within g2 r2 s2 y ->
  within (g1 + g2) (r1 + r2) (s1 + s2) (x ++ y).
Proof.
  unfold within. rewrite !List.filter_app, !length_app. lia.
Qed.

Lemma within_mono g r s g' r' s' x :
  g <= g' -> r <= r' -> s <= s' -> within g r s x -> within g' r' s' x.
Proof. unfold within. lia. Qed.

Lemma within_closed : closed (within 0 0 0).
Proof.
  split; [unfold within; cbn; lia|]. intros x y Hx Hy.
  apply (within_app 0 0 0 0 0 0 x y Hx Hy).
Qed.

Lemma runs_ret {A} T E (Q : A -> Prop) a : T [] -> Q a -> runs T E Q (ret a).
Proof. intros HT HQ w. exists []. cbn. by rewrite app_nil_r. Qed.

Lemma runs_raise {A} T (E : Exn -> Prop) (Q : A -> Prop) e :
  T [] -> E e -> runs T E Q (raise e).
Proof. intros HT HE w. exists []. cbn. by rewrite app_nil_r. Qed.

Lemma runs_emit T E (Q : unit -> Prop) e : T [e] -> Q tt -> runs T E Q (emit e).
Proof. intros HT HQ w. by exists [e]. Qed.

Lemma runs_bind_gen {A B} T1 T2 T E (Q1 : A -> Prop) (Q : B -> Prop) m k :
  runs T1 E Q1 m -> (forall a, Q1 a -> runs T2 E Q (k a)) ->
  (forall x y, T1 x -> T2 y -> T (x ++ y)) -> (forall x, T1 x -> T x) ->
  runs T E Q (bind m k).
Proof.
  intros Hm Hk Happ Hmono w. unfold bind.
  destruct (Hm w) as (x & Hx & HT & Hr).
  destruct (m w) as [[a|e] w1]; cbn [fst snd] in *.
  - destruct (Hk a Hr w1) as (y & Hy & HTy & Hr'). exists (x ++ y).
    rewrite Hy, Hx, app_assoc. auto.
  - exists x. auto.
Qed.

Lemma runs_bind {A B} T E (Q1 : A -> Prop) (Q : B -> Prop) m k :
  closed T ->
  runs T E Q1 m -> (forall a, Q1 a -> runs T E Q (k a)) ->
  runs T E Q (bind m k).
Proof.
  intros [_ Hc] Hm Hk. by apply (runs_bind_gen T T T E Q1 Q).
Qed.

Lemma runs_try_gen {A} T1 T2 T E1 E (Q : A -> Prop) m h :
  runs T1 E1 Q m -> (forall e, E1 e -> runs T2 E Q (h e)) ->
  (forall x y, T1 x -> T2 y -> T (x ++ y)) -> (forall x, T1 x -> T x) ->
  runs T E Q (try_except m h).
Proof.
  intros Hm Hh Happ Hmono w. unfold try_except.
  destruct (Hm w) as (x & Hx & HT & Hr).
  destruct (m w) as [[a|e] w1]; cbn [fst snd] in *.
  - exists x. auto.
  - destruct (Hh e Hr w1) as (y & Hy & HTy & Hr'). exists (x ++ y).
    rewrite Hy, Hx, app_assoc. auto.
Qed.

Lemma runs_try {A} T E1 E (Q : A -> Prop) m h :
  closed T ->
  runs T E1 Q m -> (forall e, E1 e -> runs T E Q (h e)) ->
  runs T E Q (try_except m h).
Proof.
  intros [_ Hc] Hm Hh. by apply (runs_try_gen T T T E1 E Q).
Qed.

Lemma runs_weaken {A} (T T' : list Event -> Prop) (E E' : Exn -> Prop)
    (Q Q' : A -> Prop) m :
  runs T E Q m ->
  (forall x, T x -> T' x) -> (forall e, E e -> E' e) ->
  (forall a, Q a -> Q' a) ->
  runs T' E' Q' m.
Proof.
  intros Hm HT HE HQ w. destruct (Hm w) as (x & Hx & HTx & Hr).
  exists x. split; [done|]. split; [auto|].
  destruct (fst (m w)); auto.
Qed.

Lemma runs_of_option {A} T E (Q : A -> Prop) (o : option A) :
  T [] -> (o = None -> E ValueError) -> (forall a, o = Some a -> Q a) ->
  runs T E Q (of_option o).
Proof.
  intros HT HE HQ. destruct o as [a|]; cbn [of_option].
  - apply runs_ret; auto.
  - apply runs_raise; auto.
Qed.

Lemma runs_mapM {A B} T E (Q : B -> Prop) (f : A -> M B) l :
  closed T -> (forall a, a ∈ l -> runs T E Q (f a)) ->
  runs T E (Forall Q) (mapM f l).
Proof.
  intros HT. induction l as [|a l IH]; intros Hf; cbn [mapM].
  - apply runs_ret; [apply HT|constructor].
  - apply (runs_bind T E Q); [done|apply Hf; by left|]. intros b Hb.
    apply (runs_bind T E (Forall Q)); [done| |].
    + apply IH. intros a' Ha'. apply Hf. by right.
    + intros bs Hbs. apply runs_ret; [apply HT|by constructor].
Qed.

(* what a run shows, read off [runs] *)
Lemma runs_since {A} T E (Q : A -> Prop) m w :
  runs T E Q m ->
  T (since w (snd (m w))) /\
  match fst (m w) with Ok a => Q a | Raised e => E e end.
Proof.
  intros Hm. destruct (Hm w) as (x & Hx & HT & Hr).
  by rewrite (since_app _ _ _ Hx).
Qed.

Section RunsOfUnits.
Variable env : Env.

Lemma runs_io T E (Q : unit -> Prop) e f :
  T [] -> T [e] -> ((exists k, io_ok env k = false) -> E OSError) -> Q tt ->
  runs T E Q (io env e f).
Proof.
  intros H0 H1 HE HQ w. unfold io. destruct (io_ok env (n_io w)) eqn:Hio.
  - by exists [e].
  - exists []. cbn. rewrite app_nil_r. split; [done|]. split; [done|].
    apply HE. by exists (n_io w).
Qed.

Lemma runs_session_get T E (Q : Response -> Prop) url proxy timeout :
  T [EvGet url proxy timeout] -> E ClientError -> (forall r, Q r) ->
  runs T E Q (session_get env url proxy timeout).
Proof.
  intros HT HE HQ w. unfold session_get. exists [EvGet url proxy timeout].
  destruct (http_get env (n_get w) url proxy); cbn; auto.
Qed.

Lemma runs_crawler_arun T E (Q : CrawlResult -> Prop) url proxy :
  T [EvRender url proxy] -> E RenderError ->
  (forall k r, arun env k url proxy = ArunReturns r -> Q r) ->
  runs T E Q (crawler_arun env url proxy).
Proof.
  intros HT HE HQ w. unfold crawler_arun. exists [EvRender url proxy].
  destruct (arun env (n_arun w) url proxy) eqn:Ha; cbn; eauto.
Qed.

Lemma runs_get_next_proxy T E (Q : option ProxyConfig -> Prop) :
  (forall p, T [EvProxy p]) -> (forall p, Q p) ->
  runs T E Q (get_next_proxy env).
Proof.
  intros HT HQ w. unfold get_next_proxy.
  destruct (negb (USE_PROXIES env) || bool_decide (proxies env = []));
    eexists [_]; cbn; auto.
Qed.

End RunsOfUnits.
(** * URLs without square brackets *)

Ltac mem_parts H :=
  repeat (rewrite mem_app in H || rewrite mem_cons in H);
  rewrite ?orb_false_iff in H; destruct_and?.

Lemma mem_not_true c s : (mem c s = true -> False) -> mem c s = false.
Proof. by destruct (mem c s); [intros []|]. Qed.

Lemma bracket_free_mem u :
  bracket_free u = true <-> mem "[" u = false /\ mem "]" u = false.
Proof.
  unfold bracket_free. rewrite andb_true_iff, !negb_true_iff. done.
Qed.

Section BracketFree.
Variable check : str -> bool.

Lemma netloc_ok_bracket_free n :
  mem "[" n = false -> mem "]" n = false -> netloc_ok check n = true.
Proof. intros H1 H2. unfold netloc_ok. by rewrite H1, H2. Qed.

(* urlsplit cuts the URL into pieces; only the test of the netloc can
   make it raise *)
Lemma urlsplit_parts u :
  exists sch net p q f,
    (forall c, is_alpha c = false -> mem c u = false ->
       mem c sch = false /\ mem c net = false /\ mem c p = false /\
       mem c q = false /\ mem c f = false) /\
    urlsplit check u =
      if netloc_ok check net then Some (mkSplit sch net p q f) else None.
Proof.
  rewrite urlsplit_eq. unfold urlsplit_clean.
  destruct (split_scheme (clean_url u)) as [sch rest] eqn:Hs.
  destruct (if startswith (py "//") rest then splitnetloc rest
            else ([], rest)) as [net rest2] eqn:Hn.
  destruct (split_on "#" rest2) as [r3 frag] eqn:Hf.
  destruct (split_on "?" r3) as [pth qry] eqn:Hq.
  exists sch, net, pth, qry, frag. split; [|done].
  intros c Hal Hc.
  assert (HU : mem c (clean_url u) = false).
  { apply mem_not_true. intros H. apply mem_clean_url in H. congruence. }
  assert (Hsr : mem c sch = false /\ mem c rest = false).
  { apply split_scheme_spec in Hs as [[-> ->]|(s0 & _ & _ & -> & Hu)];
      [done|].
    rewrite Hu in HU. mem_parts HU. by rewrite mem_lower. }
  destruct Hsr as [Hsch Hrest].
  assert (Hnr : mem c net = false /\ mem c rest2 = false).
  { destruct (startswith (py "//") rest) eqn:Hsl.
    - apply startswith_inv in Hsl as [t ->]. unfold splitnetloc in Hn.
      change (drop 2 (py "//" ++ t)) with t in Hn.
      apply span_until_spec in Hn as (-> & _).
      change (py "//" ++ net ++ rest2) with ("/" :: "/" :: net ++ rest2)
        in Hrest.
      by mem_parts Hrest.
    - by injection Hn as <- <-. }
  destruct Hnr as [Hnet Hrest2].
  apply split_on_spec in Hf as [_ Hf]. apply split_on_spec in Hq as [_ Hq].
  assert (H3 : mem c r3 = false /\ mem c frag = false).
  { destruct Hf as [[-> ->]| ->]; [done|]. by mem_parts Hrest2. }
  destruct H3 as [H3 Hfrag].
  assert (H4 : mem c pth = false /\ mem c qry = false).
  { destruct Hq as [[-> ->]| ->]; [done|]. by mem_parts H3. }
  by destruct H4.
Qed.

Lemma urlparse_bracket_free u :
  bracket_free u = true ->
  exists p,
    urlparse check u = Some p /\
    forall c, is_alpha c = false -> mem c u = false ->
      mem c (scheme p) = false /\ mem c (netloc p) = false /\
      mem c (path p) = false /\ mem c (params p) = false /\
      mem c (query p) = false /\ mem c (fragment p) = false.
Proof.
  intros Hu. apply bracket_free_mem in Hu as [Hl Hr].
  destruct (urlsplit_parts u) as (sch & net & p & q & f & Hmem & Hsplit).
  destruct (Hmem "[" eq_refl Hl) as (_ & Hnl & _).
  destruct (Hmem "]" eq_refl Hr) as (_ & Hnr & _).
  rewrite (netloc_ok_bracket_free net Hnl Hnr) in Hsplit.
  unfold urlparse. rewrite Hsplit.
  cbn [s_scheme s_netloc s_path s_query s_fragment].
  destruct (if in_list sch uses_params && mem ";" p then splitparams p
            else (p, [])) as [url prm] eqn:Hsp.
  eexists. split; [reflexivity|]. intros c Hal Hc.
  destruct (Hmem c Hal Hc) as (Hs & Hn & Hp & Hq & Hf).
  cbn [scheme netloc path params query fragment].
  assert (Hup : mem c url = false /\ mem c prm = false).
  { destruct (_ && _); [by apply (splitparams_mem _ _ _ _ Hsp)|].
    by injection Hsp as <- <-. }
  by destruct Hup.
Qed.

Lemma mem_urlunparse c p :
  mem c (py ":/?#;") = false ->
  mem c (scheme p) = false -> mem c (netloc p) = false ->
  mem c (path p) = false -> mem c (params p) = false ->
  mem c (query p) = false -> mem c (fragment p) = false ->
  mem c (urlunparse p) = false.
Proof.
  intros Hc Hs Hn Hp Hprm Hq Hf. unfold urlunparse.
  rewrite urlunsplit_assemble. unfold assemble.
  cbn [s_scheme s_netloc s_path s_query s_fragment].
  change (py ":/?#;") with [":"; "/"; "?"; "#"; ";"] in Hc.
  rewrite !mem_cons, !orb_false_iff in Hc.
  destruct Hc as (Hc1 & Hc2 & Hc3 & Hc4 & Hc5 & _).
  assert (Hss : mem c (py "//") = false).
  { change (py "//") with ["/"; "/"]. by rewrite !mem_cons, Hc2. }
  assert (Hpath : mem c (if negb (str_eqb (params p) [])
                         then path p ++ ";" :: params p else path p) = false).
  { destruct (negb _); [|done]. rewrite mem_app, mem_cons, Hp, Hprm.
    by rewrite orb_false_r. }
  rewrite !mem_app, mem_slash_fix, Hpath.
  - destruct (str_eqb (scheme p) []), (has_net _ _ _),
      (str_eqb (query p) []), (str_eqb (fragment p) []); cbn [py app];
      rewrite ?mem_app, ?mem_cons; cbn [mem existsb];
      repeat match goal with H : _ = false |- _ => rewrite H end; done.
  - intros ->. done.
Qed.

Lemma normalize_url_bracket_free u :
  bracket_free u = true ->
  exists v, normalize_url check u = Some v /\ bracket_free v = true.
Proof.
  intros Hu.
  assert (Htail : forall d, bracket_free d = true ->
            exists v,
              match urlparse check d with
              | None => None
              | Some parsed =>
                  Some (urlunparse
                    (mkParse (lower (scheme parsed)) (lower (netloc parsed))
                       (lower (rstrip is_slash (path parsed)))
                       (params parsed) (query parsed) (fragment parsed)))
              end = Some v /\ bracket_free v = true).
  { intros d Hd. destruct (urlparse_bracket_free d Hd) as (p & -> & Hmem).
    apply bracket_free_mem in Hd as [Hl Hr]. eexists. split; [reflexivity|].
    apply bracket_free_mem.
    split; [destruct (Hmem "[" eq_refl Hl) as (?&?&?&?&?&?)
           |destruct (Hmem "]" eq_refl Hr) as (?&?&?&?&?&?)];
      (apply mem_urlunparse; cbn [scheme netloc path params query fragment];
       rewrite ?mem_lower by done; try done; by apply mem_rstrip). }
  unfold normalize_url, urldefrag. destruct (mem "#" u); [|by apply Htail].
  destruct (urlparse_bracket_free u Hu) as (p & -> & Hmem).
  apply Htail. apply bracket_free_mem in Hu as [Hl Hr].
  apply bracket_free_mem.
  split; [destruct (Hmem "[" eq_refl Hl) as (?&?&?&?&?&?)
         |destruct (Hmem "]" eq_refl Hr) as (?&?&?&?&?&?)];
    by apply mem_urlunparse.
Qed.

End BracketFree.
(** * The units of a depth: what they cost and what they return *)

Ltac within_atom := unfold within; cbn; lia.

Ltac within_join g1 r1 s1 g2 r2 s2 :=
  let x := fresh in let y := fresh in let Hx := fresh in let Hy := fresh in
  intros x y Hx Hy; exact (within_app g1 r1 s1 g2 r2 s2 x y Hx Hy).

Ltac free_atom :=
  first [ apply runs_ret; [within_atom|exact I]
        | apply runs_raise; [within_atom|exact I]
        | apply runs_emit; [within_atom|exact I]
        | apply runs_io; [within_atom|within_atom|intros; exact I|exact I] ].

Ltac free_bind :=
  apply (runs_bind (within 0 0 0) _ any_value);
  [apply within_closed| |intros ? _].

Section Budget.
Variable env : Env.

Lemma stream_body_free filepath chunks :
  runs (within 0 0 0) any_value any_value (stream_body env filepath chunks).
Proof.
  induction chunks as [|[|c] rest IH]; cbn [stream_body].
  - free_atom.
  - free_bind; free_atom.
  - destruct c as [|x c]; [free_atom|].
    free_bind; [free_atom|]. free_bind; [unfold write; free_atom|apply IH].
Qed.

Lemma download_filename_free url resp :
  runs (within 0 0 0) any_value any_value (download_filename env url resp).
Proof.
  unfold download_filename. destruct (contains _ _).
  - destruct (_ !! 1); free_atom.
  - free_bind; [|free_atom].
    apply runs_of_option; [within_atom|intros; exact I|intros; exact I].
Qed.

Lemma download_body_within url proxy output_dir map_file :
  runs (within 1 0 0) any_value any_value
       (download_body env url proxy output_dir map_file).
Proof.
  unfold download_body.
  apply (runs_bind_gen (within 1 0 0) (within 0 0 0) (within 1 0 0) _
           any_value).
  - apply runs_session_get; [within_atom|exact I|intros; exact I].
  - intros resp _. free_bind; [apply download_filename_free|].
    free_bind; [unfold makedirs; free_atom|].
    free_bind; [unfold open_write; free_atom|].
    free_bind; [apply stream_body_free|].
    free_bind; [unfold log; free_atom|].
    free_bind; [unfold open_append; free_atom|].
    unfold append. free_atom.
  - within_join 1 0 0 0 0 0.
  - auto.
Qed.

Lemma download_file_within url proxy output_dir map_file :
  runs (within 1 0 0) no_exception any_value
       (download_file env url proxy output_dir map_file).
Proof.
  unfold download_file.
  apply (runs_try_gen (within 1 0 0) (within 0 0 0) (within 1 0 0) any_value).
  - apply download_body_within.
  - intros e _. unfold log. apply runs_emit; [within_atom|exact I].
  - within_join 1 0 0 0 0 0.
  - auto.
Qed.

Lemma is_downloadable_within url proxy :
  runs (within 1 0 0) no_exception any_value (is_downloadable env url proxy).
Proof.
  unfold is_downloadable. destruct (has_download_extension url).
  { apply runs_ret; [within_atom|exact I]. }
  apply (runs_try_gen (within 1 0 0) (within 0 0 0) (within 1 0 0) any_value).
  - apply (runs_bind_gen (within 1 0 0) (within 0 0 0) (within 1 0 0) _
             any_value).
    + apply runs_session_get; [within_atom|exact I|intros; exact I].
    + intros resp _. free_atom.
    + within_join 1 0 0 0 0 0.
    + auto.
  - intros e _. apply (runs_bind (within 0 0 0) _ any_value);
      [apply within_closed| |intros ? _].
    + unfold log. apply runs_emit; [within_atom|exact I].
    + apply runs_ret; [within_atom|exact I].
  - within_join 1 0 0 0 0 0.
  - auto.
Qed.

Lemma retry_loop_within url left : forall a,
  runs (within 0 left left) no_exception (none_or_success env url)
       (retry_loop env url left a).
Proof.
  induction left as [|left IH]; intros a; cbn [retry_loop].
  - apply (runs_bind (within 0 0 0) _ any_value);
      [apply within_closed| |intros ? _].
    + unfold log. apply runs_emit; [within_atom|exact I].
    + apply runs_ret; [within_atom|exact I].
  - apply (runs_bind_gen (within 0 0 0)
             (within 0 (Datatypes.S left) (Datatypes.S left))
             (within 0 (Datatypes.S left) (Datatypes.S left)) _ any_value).
    + apply runs_get_next_proxy; [intros; within_atom|intros; exact I].
    + intros proxy _.
      apply (runs_bind_gen (within 0 1 1) (within 0 left left)
               (within 0 (Datatypes.S left) (Datatypes.S left)) _
               (none_or_success env url)).
      * apply (runs_try_gen (within 0 1 0) (within 0 0 1) (within 0 1 1)
                 any_value).
        -- apply (runs_bind_gen (within 0 1 0) (within 0 0 0) (within 0 1 0) _
                    (fun r => exists k p, arun env k url p = ArunReturns r)).
           ++ apply runs_crawler_arun; [within_atom|exact I|].
              intros k r Hr. by exists k, proxy.
           ++ intros r Hr. destruct (r_success r) eqn:Hs.
              ** apply runs_ret; [within_atom|by split].
              ** apply (runs_bind (within 0 0 0) _ any_value);
                   [apply within_closed| |intros ? _].
                 --- unfold log. apply runs_emit; [within_atom|exact I].
                 --- apply runs_ret; [within_atom|exact I].
           ++ within_join 0 1 0 0 0 0.
           ++ auto.
        -- intros e _.
           apply (runs_bind_gen (within 0 0 0) (within 0 0 1) (within 0 0 1) _
                    any_value).
           ++ unfold log. apply runs_emit; [within_atom|exact I].
           ++ intros _ _.
              apply (runs_bind_gen (within 0 0 1) (within 0 0 0)
                       (within 0 0 1) _ any_value).
              ** unfold sleep. apply runs_emit; [within_atom|exact I].
              ** intros _ _. apply runs_ret; [within_atom|exact I].
              ** within_join 0 0 1 0 0 0.
              ** auto.
           ++ within_join 0 0 0 0 0 1.
           ++ intros x. apply within_mono; lia.
        -- within_join 0 1 0 0 0 1.
        -- intros x. apply within_mono; lia.
      * intros [r|] Hr; [|apply IH].
        apply runs_ret; [within_atom|exact Hr].
      * within_join 0 1 1 0 left left.
      * intros x. apply within_mono; lia.
    + within_join 0 0 0 0 (Datatypes.S left) (Datatypes.S left).
    + intros x. apply within_mono; lia.
Qed.

Lemma crawl_url_within url :
  runs (within 2 5 5) no_exception (none_or_success env url)
       (crawl_url env url).
Proof.
  unfold crawl_url.
  apply (runs_bind_gen (within 0 0 0) (within 2 5 5) (within 2 5 5) _
           any_value).
  - apply runs_get_next_proxy; [intros; within_atom|intros; exact I].
  - intros proxy _.
    apply (runs_bind_gen (within 2 0 0) (within 0 5 5) (within 2 5 5) _
             any_value).
    + apply (runs_try_gen (within 2 0 0) (within 0 0 0) (within 2 0 0)
               no_exception).
      * apply (runs_bind_gen (within 1 0 0) (within 1 0 0) (within 2 0 0) _
                 any_value).
        -- apply is_downloadable_within.
        -- intros [|] _; [|apply runs_ret; [within_atom|exact I]].
           apply (runs_bind_gen (within 1 0 0) (within 0 0 0) (within 1 0 0) _
                    any_value).
           ++ apply download_file_within.
           ++ intros _ _. apply runs_ret; [within_atom|exact I].
           ++ within_join 1 0 0 0 0 0.
           ++ auto.
        -- within_join 1 0 0 1 0 0.
        -- intros x. apply within_mono; lia.
      * intros e [].
      * within_join 2 0 0 0 0 0.
      * auto.
    + intros [|] _.
      * apply runs_ret; [within_atom|exact I].
      * apply (retry_loop_within url MAX_RETRIES 0).
    + within_join 2 0 0 0 5 5.
    + intros x. apply within_mono; lia.
  - within_join 0 0 0 2 5 5.
  - intros x. apply within_mono; lia.
Qed.

(** X9: a unit of a depth, crawl_url, never raises.  It returns None or
    a result that the renderer gave for its URL and that succeeded, and
    on the way it sends at most 2 requests (the probe and the download),
    renders at most MAX_RETRIES = 5 times and sleeps at most 5 times. *)
Theorem crawl_url_budget (url : str) (w : World) :
  exists r w',
    crawl_url env url w = (Ok r, w') /\
    (r = None \/
     exists x, r = Some x /\ r_success x = true /\
               exists k p, arun env k url p = ArunReturns x) /\
    length (List.filter is_get (since w w')) <= 2 /\
    length (List.filter is_render (since w w')) <= MAX_RETRIES /\
    length (List.filter is_sleep (since w w')) <= MAX_RETRIES.
Proof.
  destruct (runs_since _ _ _ _ w (crawl_url_within url)) as [Hw Hr].
  destruct (crawl_url env url w) as [[r|e] w'] eqn:Hrun; cbn [fst snd] in *;
    [|destruct Hr].
  exists r, w'. split; [done|]. split; [|exact Hw].
  destruct r as [x|]; [right|by left]. exists x. by destruct Hr.
Qed.

End Budget.
(** * The units of a depth: the lines they print *)

Ltac live_atom :=
  first [ apply runs_ret; [constructor|exact I]
        | apply runs_raise; [constructor|exact I]
        | apply runs_emit; [by repeat constructor|exact I]
        | apply runs_io;
            [constructor|by repeat constructor|intros; exact I|exact I] ].

Ltac live_bind :=
  apply (runs_bind (avoids is_dead_line) _ any_value);
  [apply avoids_closed| |intros ? _].

Ltac live_bind_as x :=
  apply (runs_bind (avoids is_dead_line) _ any_value);
  [apply avoids_closed| |intros x _].

Section LiveUnits.
Variable env : Env.

Lemma stream_body_live filepath chunks :
  runs (avoids is_dead_line) any_value any_value
       (stream_body env filepath chunks).
Proof.
  induction chunks as [|[|c] rest IH]; cbn [stream_body].
  - live_atom.
  - live_bind; live_atom.
  - destruct c as [|x c]; [live_atom|].
    live_bind; [live_atom|]. live_bind; [unfold write; live_atom|apply IH].
Qed.

Lemma download_file_live url proxy output_dir map_file :
  runs (avoids is_dead_line) no_exception any_value
       (download_file env url proxy output_dir map_file).
Proof.
  unfold download_file.
  apply (runs_try (avoids is_dead_line) any_value); [apply avoids_closed| |].
  - unfold download_body. live_bind.
    { apply runs_session_get; [by repeat constructor|exact I|intros; exact I]. }
    live_bind.
    { unfold download_filename. destruct (contains _ _).
      - destruct (_ !! 1); live_atom.
      - live_bind; [|live_atom].
        apply runs_of_option; [constructor|intros; exact I|intros; exact I]. }
    live_bind; [unfold makedirs; live_atom|].
    live_bind; [unfold open_write; live_atom|].
    live_bind; [apply stream_body_live|].
    live_bind; [unfold log; live_atom|].
    live_bind; [unfold open_append; live_atom|].
    unfold append. live_atom.
  - intros e _. unfold log. live_atom.
Qed.

Lemma is_downloadable_live url proxy :
  runs (avoids is_dead_line) no_exception any_value
       (is_downloadable env url proxy).
Proof.
  unfold is_downloadable. destruct (has_download_extension url).
  { live_atom. }
  apply (runs_try (avoids is_dead_line) any_value); [apply avoids_closed| |].
  - live_bind; [|live_atom].
    apply runs_session_get; [by repeat constructor|exact I|intros; exact I].
  - intros e _. live_bind; [unfold log; live_atom|live_atom].
Qed.

Lemma retry_loop_live url left : forall a,
  runs (avoids is_dead_line) no_exception (none_or_success env url)
       (retry_loop env url left a).
Proof.
  induction left as [|left IH]; intros a; cbn [retry_loop].
  - live_bind; [unfold log; live_atom|live_atom].
  - live_bind_as proxy.
    { apply runs_get_next_proxy; [by repeat constructor|intros; exact I]. }
    apply (runs_bind (avoids is_dead_line) _ (none_or_success env url));
      [apply avoids_closed| |].
    + apply (runs_try (avoids is_dead_line) any_value);
        [apply avoids_closed| |].
      * apply (runs_bind (avoids is_dead_line) _
                 (fun r => exists k p, arun env k url p = ArunReturns r));
          [apply avoids_closed| |].
        -- apply runs_crawler_arun; [by repeat constructor|exact I|].
           intros k r Hr. by exists k, proxy.
        -- intros r Hr. destruct (r_success r) eqn:Hs.
           ++ apply runs_ret; [constructor|by split].
           ++ live_bind; [unfold log; live_atom|live_atom].
      * intros e _. live_bind; [unfold log; live_atom|].
        live_bind; [unfold sleep; live_atom|live_atom].
    + intros [r|] Hr; [|apply IH]. apply runs_ret; [constructor|exact Hr].
Qed.

Lemma crawl_url_live url :
  runs (avoids is_dead_line) no_exception (none_or_success env url)
       (crawl_url env url).
Proof.
  unfold crawl_url. live_bind_as proxy.
  { apply runs_get_next_proxy; [by repeat constructor|intros; exact I]. }
  live_bind_as downloaded.
  - apply (runs_try (avoids is_dead_line) no_exception);
      [apply avoids_closed| |by intros e []].
    live_bind_as d; [apply is_downloadable_live|].
    destruct d; [|live_atom].
    live_bind; [apply download_file_live|live_atom].
  - destruct downloaded; [live_atom|apply retry_loop_live].
Qed.

End LiveUnits.
(** * Whole runs: their shape, their cost and their exceptions *)

Lemma avoids_filter_nil (f g : Event -> bool) t :
  (forall e, g e = true -> f e = true) -> avoids f t -> List.filter g t = [].
Proof.
  intros Hfg Ht. induction Ht as [|e t He _ IH]; [done|]. cbn [List.filter].
  destruct (g e) eqn:Hg; [|exact IH]. apply Hfg in Hg. congruence.
Qed.

Lemma avoids_weaken (f g : Event -> bool) t :
  (forall e, g e = true -> f e = true) -> avoids f t -> avoids g t.
Proof.
  intros Hfg Ht. unfold avoids in *. eapply Forall_impl; [exact Ht|].
  intros e He. cbn in He. destruct (g e) eqn:Hg; [|done].
  apply Hfg in Hg. congruence.
Qed.

Lemma fetched_app x y : fetched (x ++ y) = fetched x ++ fetched y.
Proof. unfold fetched. apply flat_map_app. Qed.

Lemma fetched_no_wave t : avoids is_wave t -> fetched t = [].
Proof.
  intros Ht. induction Ht as [|e t He _ IH]; [done|].
  unfold fetched in *. cbn [flat_map]. rewrite IH. by destruct e.
Qed.

Lemma loop_noise_wave e : is_wave e = true -> is_loop_noise e = true.
Proof. intros H. unfold is_loop_noise. rewrite H. by rewrite ?orb_true_r. Qed.

Lemma loop_noise_get e : is_get e = true -> is_loop_noise e = true.
Proof. intros H. unfold is_loop_noise. by rewrite H. Qed.

Lemma loop_noise_render e : is_render e = true -> is_loop_noise e = true.
Proof. intros H. unfold is_loop_noise. rewrite H. by rewrite ?orb_true_r. Qed.

Lemma loop_noise_sleep e : is_sleep e = true -> is_loop_noise e = true.
Proof. intros H. unfold is_loop_noise. rewrite H. by rewrite ?orb_true_r. Qed.

Lemma loop_noise_dead e : is_dead_line e = true -> is_loop_noise e = true.
Proof. intros H. unfold is_loop_noise. rewrite H. by rewrite ?orb_true_r. Qed.

Lemma unit_noise_wave e : is_wave e = true -> is_unit_noise e = true.
Proof. intros H. unfold is_unit_noise. by rewrite H. Qed.

Lemma unit_noise_dead e : is_dead_line e = true -> is_unit_noise e = true.
Proof. intros H. unfold is_unit_noise. rewrite H. by rewrite orb_true_r. Qed.

Lemma run_shape_quiet x : avoids is_loop_noise x -> run_shape 0 x.
Proof.
  intros Hx. unfold run_shape, within.
  rewrite (avoids_filter_nil _ _ x loop_noise_wave Hx),
    (avoids_filter_nil _ _ x loop_noise_get Hx),
    (avoids_filter_nil _ _ x loop_noise_render Hx),
    (avoids_filter_nil _ _ x loop_noise_sleep Hx).
  split; [cbn; lia|]. split; [cbn; lia|].
  by apply (avoids_weaken _ _ x loop_noise_dead).
Qed.

Lemma run_shape_app a b x y :
  run_shape a x -> run_shape b y -> run_shape (a + b) (x ++ y).
Proof.
  unfold run_shape, within, MAX_RETRIES.
  intros (Hw & (Hg & Hr & Hs) & Hd) (Hw' & (Hg' & Hr' & Hs') & Hd').
  rewrite fetched_app, !List.filter_app, !length_app.
  split; [lia|]. split; [lia|]. by apply Forall_app_2.
Qed.

Lemma run_shape_mono a b x : a <= b -> run_shape a x -> run_shape b x.
Proof. unfold run_shape. intros Hab (Hw & Hrest). split; [lia|done]. Qed.

Lemma run_shape_after_quiet n x y :
  avoids is_loop_noise x -> run_shape n y -> run_shape n (x ++ y).
Proof.
  intros Hx Hy. apply (run_shape_app 0 n); [by apply run_shape_quiet|done].
Qed.

Lemma run_shape_of_quiet n x : avoids is_loop_noise x -> run_shape n x.
Proof.
  intros Hx. apply (run_shape_mono 0); [lia|by apply run_shape_quiet].
Qed.

Lemma run_shape_wave urls u :
  units_of (length urls) u -> run_shape 1 (EvWave urls :: u).
Proof.
  intros [(Hg & Hr & Hs) Hu]. unfold run_shape, within, MAX_RETRIES in *.
  assert (Hfw : fetched (EvWave urls :: u) = urls).
  { change (fetched (EvWave urls :: u)) with (urls ++ fetched u).
    rewrite (fetched_no_wave u), app_nil_r; [done|].
    by apply (avoids_weaken _ _ u unit_noise_wave). }
  rewrite Hfw. cbn [List.filter is_wave is_get is_render is_sleep].
  rewrite (avoids_filter_nil _ _ u unit_noise_wave Hu).
  split; [cbn; lia|]. split; [lia|]. constructor; [done|].
  by apply (avoids_weaken _ _ u unit_noise_dead).
Qed.

Lemma units_of_app a b x y :
  units_of a x -> units_of b y -> units_of (a + b) (x ++ y).
Proof.
  unfold units_of, within, MAX_RETRIES.
  intros [(Hg & Hr & Hs) Hu] [(Hg' & Hr' & Hs') Hu'].
  rewrite !List.filter_app, !length_app. split; [lia|]. by apply Forall_app_2.
Qed.

Lemma units_of_mono a b x : a <= b -> units_of a x -> units_of b x.
Proof.
  unfold units_of, within, MAX_RETRIES. intros Hab [(Hg & Hr & Hs) Hu].
  split; [lia|done].
Qed.

Lemma units_of_nil n : units_of n [].
Proof. split; [unfold within; cbn; lia|constructor]. Qed.

Section RunShape.
Variable env : Env.
Variable start_urls : list str.

Local Abbreviation check := (bracket_check env).
Local Abbreviation good := (bracket_free_run env start_urls).
Local Abbreviation live := (avoids is_loop_noise).
Local Abbreviation exn := (crawl_exception env start_urls).
Local Abbreviation all_free := (fun s : gset str =>
  good -> forall u, u ∈ s -> bracket_free u = true).

Lemma raises_value_error {A} (o : option A) :
  (good -> o <> None) -> o = None -> exn ValueError.
Proof. intros H Ho. left. split; [done|]. intros Hg. by apply H. Qed.

Lemma raises_os_error : (exists k, io_ok env k = false) -> exn OSError.
Proof. intros H. by right. Qed.

Lemma normalize_live u :
  (good -> bracket_free u = true) ->
  runs live exn (fun v => good -> bracket_free v = true)
       (of_option (normalize env u)).
Proof.
  intros Hu. apply runs_of_option; [constructor| |].
  - apply raises_value_error. intros Hg.
    destruct (normalize_url_bracket_free check u (Hu Hg)) as (v & Hv & _).
    unfold normalize. by rewrite Hv.
  - intros v Hv Hg.
    destruct (normalize_url_bracket_free check u (Hu Hg)) as (v' & Hv' & Hf).
    unfold normalize in Hv. by simplify_eq.
Qed.

Lemma urlparse_live u :
  (good -> bracket_free u = true) ->
  runs live exn any_value (of_option (urlparse check u)).
Proof.
  intros Hu. apply runs_of_option; [constructor| |intros; exact I].
  apply raises_value_error. intros Hg.
  destruct (urlparse_bracket_free check u (Hu Hg)) as (p & Hp & _).
  by rewrite Hp.
Qed.

Lemma io_live e f : is_loop_noise e = false -> runs live exn any_value (io env e f).
Proof.
  intros He. apply runs_io; [constructor|by repeat constructor| |exact I].
  apply raises_os_error.
Qed.

Lemma log_live l :
  is_loop_noise (EvLog l) = false -> runs live exn any_value (log l).
Proof. intros Hl. apply runs_emit; [by repeat constructor|exact I]. Qed.

Lemma fold_links_live base visited links : forall next,
  (good -> forallb bracket_free links = true) -> all_free next ->
  runs live exn all_free (fold_links env base visited next links).
Proof.
  induction links as [|href rest IH]; intros next Hl Hn; cbn [fold_links].
  - apply runs_ret; [constructor|exact Hn].
  - assert (Hhref : good -> bracket_free href = true).
    { intros Hg. specialize (Hl Hg). cbn [forallb] in Hl.
      by apply andb_true_iff in Hl as [? _]. }
    assert (Hrest : good -> forallb bracket_free rest = true).
    { intros Hg. specialize (Hl Hg). cbn [forallb] in Hl.
      by apply andb_true_iff in Hl as [_ ?]. }
    apply (runs_bind live _ (fun v => good -> bracket_free v = true));
      [apply avoids_closed|by apply normalize_live|].
    intros next_url Hv.
    apply (runs_bind live _ any_value);
      [apply avoids_closed|by apply urlparse_live|].
    intros p _. destruct (_ && _); [|by apply IH].
    apply IH; [done|]. intros Hg u Hu.
    apply elem_of_union in Hu as [Hu|Hu]; [|by apply Hn].
    apply elem_of_singleton in Hu as ->. by apply Hv.
Qed.

Lemma save_markdown_live r : runs live exn any_value (save_markdown env r).
Proof.
  unfold save_markdown. destruct (str_eqb (r_markdown r) []).
  { apply runs_ret; [constructor|exact I]. }
  apply (runs_bind live _ any_value);
    [apply avoids_closed|by apply io_live|intros _ _].
  apply (runs_bind live _ any_value);
    [apply avoids_closed|by apply io_live|intros _ _].
  by apply io_live.
Qed.

Lemma fold_results_live base results : forall visited next,
  Forall (fun r => exists url, none_or_success env url r) results ->
  all_free next ->
  runs live exn (fun vn : gset str * gset str => all_free (snd vn))
       (fold_results env base visited next results).
Proof.
  induction results as [|[r|] rest IH]; intros visited next Hr Hn;
    cbn [fold_results].
  - apply runs_ret; [constructor|exact Hn].
  - apply Forall_cons in Hr as [(url & Hs & k & p & Hrun) Hrest].
    rewrite Hs.
    apply (runs_bind live _ any_value); [apply avoids_closed| |intros v _].
    { apply (runs_weaken live live exn exn
               (fun v => good -> bracket_free v = true)); [|auto..].
      - apply normalize_live. intros [_ Hg]. by apply (Hg k url p r Hrun).
      - intros; exact I. }
    apply (runs_bind live _ any_value);
      [apply avoids_closed|by apply log_live|intros _ _].
    apply (runs_bind live _ any_value);
      [apply avoids_closed|apply save_markdown_live|intros _ _].
    apply (runs_bind live _ all_free); [apply avoids_closed| |].
    + apply fold_links_live; [|done]. intros [_ Hg].
      by apply (Hg k url p r Hrun).
    + intros next' Hn'. by apply IH.
  - apply Forall_cons in Hr as [_ Hrest]. by apply IH.
Qed.

Lemma select_urls_live visited urls :
  (good -> Forall (fun u => bracket_free u = true) urls) ->
  runs live exn any_value (select_urls env visited urls).
Proof.
  induction urls as [|url rest IH]; intros Hu; cbn [select_urls].
  - apply runs_ret; [constructor|exact I].
  - assert (Hurl : good -> bracket_free url = true).
    { intros Hg. specialize (Hu Hg). by apply Forall_cons in Hu as [? _]. }
    assert (Hrest : good -> Forall (fun u => bracket_free u = true) rest).
    { intros Hg. specialize (Hu Hg). by apply Forall_cons in Hu as [_ ?]. }
    apply (runs_bind live _ (fun v => good -> bracket_free v = true));
      [apply avoids_closed|by apply normalize_live|intros n _].
    destruct (bool_decide _); [by apply IH|].
    apply (runs_bind live _ (fun v => good -> bracket_free v = true));
      [apply avoids_closed|by apply normalize_live|intros n' _].
    apply (runs_bind live _ any_value);
      [apply avoids_closed|by apply IH|intros ns _].
    apply runs_ret; [constructor|exact I].
Qed.

Lemma base_domain_of_live :
  start_urls <> [] -> runs live exn any_value (base_domain_of env start_urls).
Proof.
  intros Hne. unfold base_domain_of, bracket_free_run.
  destruct start_urls as [|first rest] eqn:Hs; [done|].
  apply (runs_bind live _ any_value); [apply avoids_closed| |intros p _].
  - rewrite <- Hs. apply urlparse_live. rewrite Hs. intros [Hg _].
    cbn [forallb] in Hg. by apply andb_true_iff in Hg as [? _].
  - rewrite <- Hs. apply runs_ret; [constructor|exact I].
Qed.

Lemma crawl_url_units url :
  runs (units_of 1) no_exception (none_or_success env url) (crawl_url env url).
Proof.
  intros w.
  destruct (crawl_url_within env url w) as (x & Hx & Hwithin & Hres).
  destruct (crawl_url_live env url w) as (y & Hy & Hlive & _).
  destruct (quiet_crawl_url env url w) as (z & Hz & Hquiet).
  assert (y = x) as -> by (rewrite Hx in Hy; by apply app_inv_head in Hy).
  assert (z = x) as -> by (rewrite Hx in Hz; by apply app_inv_head in Hz).
  exists x. split; [done|]. split; [|done]. split; [exact Hwithin|].
  unfold avoids, unit_events in *. rewrite Forall_forall in *.
  intros e He. unfold is_unit_noise. rewrite (Hlive e He).
  specialize (Hquiet e He). cbn in Hquiet. by destruct e.
Qed.

Lemma mapM_crawl_url_units urls :
  runs (units_of (length urls)) no_exception
       (Forall (fun r => exists url, none_or_success env url r))
       (mapM (crawl_url env) urls).
Proof.
  induction urls as [|url urls IH]; cbn [mapM length].
  - apply runs_ret; [apply units_of_nil|constructor].
  - apply (runs_bind_gen (units_of 1) (units_of (length urls))
             (units_of (Datatypes.S (length urls))) _
             (none_or_success env url)).
    + apply crawl_url_units.
    + intros r Hr.
      apply (runs_bind_gen (units_of (length urls)) (units_of 0)
               (units_of (length urls)) _
               (Forall (fun r => exists url, none_or_success env url r))).
      * exact IH.
      * intros rs Hrs. apply runs_ret; [apply units_of_nil|].
        constructor; [by exists url|done].
      * intros x y Hx Hy. apply (units_of_mono (length urls + 0)); [lia|].
        by apply units_of_app.
      * auto.
    + intros x y Hx Hy. by apply (units_of_app 1 (length urls)).
    + intros x. apply units_of_mono. lia.
Qed.

Lemma crawl_loop_shape left : forall depth visited current,
  (start_urls = [] -> current = ∅) -> all_free current ->
  runs (run_shape left) exn any_value
       (crawl_loop env start_urls left depth visited current).
Proof.
  induction left as [|left IH]; intros depth visited current Hempty Hc;
    cbn [crawl_loop].
  { apply runs_ret; [by apply run_shape_of_quiet; constructor|exact I]. }
  apply (runs_bind_gen live (run_shape (Datatypes.S left))
           (run_shape (Datatypes.S left)) _ any_value);
    [by apply log_live| |apply run_shape_after_quiet|apply run_shape_of_quiet].
  intros _ _.
  apply (runs_bind_gen live (run_shape (Datatypes.S left))
           (run_shape (Datatypes.S left)) _
           (fun urls => urls <> [] -> start_urls <> []));
    [| |apply run_shape_after_quiet|apply run_shape_of_quiet].
  - destruct (decide (start_urls = [])) as [Hs|Hs].
    + rewrite (Hempty Hs), elements_empty. cbn [select_urls].
      apply runs_ret; [constructor|done].
    + apply (runs_weaken live live exn exn any_value); [|auto..].
      apply select_urls_live. intros Hg. apply Forall_forall.
      intros u Hu. apply Hc; [done|]. by apply elem_of_elements.
  - intros [|u urls] Hne.
    { apply runs_ret; [by apply run_shape_of_quiet; constructor|exact I]. }
    assert (Hs : start_urls <> []) by by apply Hne.
    apply (runs_bind_gen (fun x => x = [EvWave (u :: urls)])
             (fun t => run_shape (Datatypes.S left) (EvWave (u :: urls) :: t))
             (run_shape (Datatypes.S left)) _ any_value).
    { by apply runs_emit. }
    2: { by intros x y -> Hy. }
    2: { intros x ->. apply (run_shape_mono 1); [lia|].
         apply run_shape_wave, units_of_nil. }
    intros _ _.
    apply (runs_bind_gen (units_of (length (u :: urls))) (run_shape left)
             (fun t => run_shape (Datatypes.S left) (EvWave (u :: urls) :: t))
             _ (Forall (fun r => exists url, none_or_success env url r))).
    { apply (runs_weaken _ _ no_exception exn _ _ _
               (mapM_crawl_url_units (u :: urls))); [auto| |auto].
      by intros e []. }
    2: { intros x y Hx Hy.
         change (EvWave (u :: urls) :: x ++ y)
           with ((EvWave (u :: urls) :: x) ++ y).
         apply (run_shape_app 1 left); [by apply run_shape_wave|done]. }
    2: { intros x Hx. apply (run_shape_mono 1); [lia|].
         by apply run_shape_wave. }
    intros results Hres.
    apply (runs_bind_gen live (run_shape left) (run_shape left) _ any_value);
      [by apply base_domain_of_live| |apply run_shape_after_quiet
      |apply run_shape_of_quiet].
    intros base _.
    apply (runs_bind_gen live (run_shape left) (run_shape left) _
             (fun vn : gset str * gset str => all_free (snd vn)));
      [| |apply run_shape_after_quiet|apply run_shape_of_quiet].
    { apply fold_results_live; [done|]. intros _ x Hx.
      by apply elem_of_empty in Hx. }
    intros [visited' next] Hnext. cbn [snd] in Hnext.
    apply (runs_bind_gen live (run_shape left) (run_shape left) _ any_value);
      [| |apply run_shape_after_quiet|apply run_shape_of_quiet].
    { apply runs_emit; [by repeat constructor|exact I]. }
    intros _ _. by apply IH.
Qed.

Lemma crawl_recursive_batch_shape max_depth :
  runs (run_shape max_depth) exn any_value
       (crawl_recursive_batch env start_urls max_depth).
Proof.
  unfold crawl_recursive_batch.
  apply (runs_bind_gen live (run_shape max_depth) (run_shape max_depth) _
           (fun l => (start_urls = [] -> l = []) /\
                     Forall (fun v => good -> bracket_free v = true) l));
    [| |apply run_shape_after_quiet|apply run_shape_of_quiet].
  - destruct (decide (start_urls = [])) as [Hs|Hs].
    + assert (Hm : mapM (fun u => of_option (normalize env u)) start_urls
                   = ret []) by (by rewrite Hs).
      rewrite Hm. apply runs_ret; [constructor|done].
    + apply (runs_weaken live live exn exn
               (Forall (fun v => good -> bracket_free v = true)));
        [|auto..|by intros l Hl].
      apply runs_mapM; [apply avoids_closed|]. intros u Hu.
      apply normalize_live. intros [Hg _].
      rewrite forallb_forall in Hg. apply Hg. by apply list_elem_of_In.
  - intros normalized [Hnil Hall]. apply crawl_loop_shape.
    + intros Hs. by rewrite (Hnil Hs).
    + intros Hg u Hu. apply elem_of_list_to_set in Hu.
      rewrite Forall_forall in Hall. by apply Hall.
Qed.



(** X12: two lines of the program are printed in no run: the [ERROR]
    line of line 184, because a unit returns no failed result, and the
    [AIOHTTP ERROR] line of line 137, because is_downloadable and
    download_file catch their own exceptions. *)
Theorem crawl_never_prints (max_depth : nat) (w : World) (url msg : str) :
  (EvLog (LogError url msg)
     ∉ since w (snd (crawl_recursive_batch env start_urls max_depth w))) /\
  (EvLog (LogAiohttpError url)
     ∉ since w (snd (crawl_recursive_batch env start_urls max_depth w))).
Proof.
  destruct (runs_since _ _ _ _ w (crawl_recursive_batch_shape max_depth))
    as [(_ & _ & Ht) _].
  unfold avoids in Ht. rewrite Forall_forall in Ht.
  split; intros Hin; by specialize (Ht _ Hin).
Qed.

(** X13: a run starts at most max_depth depths: the loop of line 114
    creates the tasks of a depth at most max_depth times, also when the
    frontier never runs empty. *)
Theorem crawl_depth_bound (max_depth : nat) (w : World) :
  length (List.filter is_wave
            (since w (snd (crawl_recursive_batch env start_urls max_depth w))))
  <= max_depth.
Proof.
  by destruct (runs_since _ _ _ _ w (crawl_recursive_batch_shape max_depth))
    as [(Ht & _) _].
Qed.


End RunShape.
(** * Edge cases, the first depth and the output files *)

Lemma runs_bind_ok {A B} (T1 T2 T : list Event -> Prop) E
    (Q1 : A -> Prop) (Q : B -> Prop) m k :
  runs T1 no_exception Q1 m -> (forall a, Q1 a -> runs T2 E Q (k a)) ->
  (forall x y, T1 x -> T2 y -> T (x ++ y)) ->
  runs T E Q (bind m k).
Proof.
  intros Hm Hk Happ w. unfold bind.
  destruct (Hm w) as (x & Hx & HT & Hr).
  destruct (m w) as [[a|e] w1]; cbn [fst snd] in *; [|destruct Hr].
  destruct (Hk a Hr w1) as (y & Hy & HTy & Hr'). exists (x ++ y).
  rewrite Hy, Hx, app_assoc. auto.
Qed.

Lemma quiet_grows {A} (m : M A) :
  quiet m -> runs (fun _ => True) any_value any_value m.
Proof.
  intros Hm w. destruct (Hm w) as (new & Hnew & _). exists new.
  split; [done|]. split; [done|]. by destruct (fst (m w)).
Qed.

Lemma mapM_of_option_ok {A B} (f : A -> option B) l vs w :
  Forall2 (fun u v => f u = Some v) l vs ->
  mapM (fun u => of_option (f u)) l w = (Ok vs, w).
Proof.
  intros H. induction H as [|u v l vs Hu _ IH]; [done|]. cbn [mapM].
  by rewrite bind_of_option, Hu, bind_eq, IH.
Qed.


Lemma loop_trace_fold_grows env scope v nx t2 t1 : forall V,
  loop_trace env scope V (t1 ++ EvFolded v nx :: t2) -> V ⊆ v.
Proof.
  induction t1 as [|e t1 IH]; intros V Ht.
  - by destruct Ht as (Hsub & _).
  - destruct e; cbn [app loop_trace] in Ht; try (by apply (IH V Ht)).
    + destruct Ht as [_ Ht]. by apply (IH V Ht).
    + destruct Ht as (Hsub & _ & Ht). etrans; [exact Hsub|by apply IH].
Qed.

Lemma loop_trace_fold_fold env scope v1 n1 v2 n2 t2 t3 t1 : forall V,
  loop_trace env scope V
    (t1 ++ EvFolded v1 n1 :: t2 ++ EvFolded v2 n2 :: t3) ->
  v1 ⊆ v2.
Proof.
  induction t1 as [|e t1 IH]; intros V Ht.
  - destruct Ht as (_ & _ & Ht). by apply loop_trace_fold_grows in Ht.
  - destruct e; cbn [app loop_trace] in Ht; try (by apply (IH V Ht)).
    + destruct Ht as [_ Ht]. by apply (IH V Ht).
    + destruct Ht as (_ & _ & Ht). by apply (IH _ Ht).
Qed.

Section Edges.
Variable env : Env.

Lemma select_urls_all l w :
  (forall x, x ∈ l -> normalize env x = Some x) ->
  select_urls env ∅ l w = (Ok l, w).
Proof.
  induction l as [|x l IH]; intros Hl; [done|]. cbn [select_urls].
  rewrite bind_of_option, (Hl x) by apply list_elem_of_here.
  rewrite bool_decide_eq_false_2 by apply not_elem_of_empty.
  rewrite bind_of_option, bind_eq, IH; [done|]. intros y Hy. apply Hl.
  by apply list_elem_of_further.
Qed.


(** X16: the visited set only grows: what a later depth records as
    visited includes what an earlier depth recorded. *)
Theorem visited_only_grows (start_urls : list str) (max_depth : nat)
    (w : World) (t1 t2 t3 : list Event) (v1 n1 v2 n2 : gset str) :
  since w (snd (crawl_recursive_batch env start_urls max_depth w))
    = t1 ++ EvFolded v1 n1 :: t2 ++ EvFolded v2 n2 :: t3 ->
  v1 ⊆ v2.
Proof.
  intros Htrace.
  pose proof (crawl_recursive_batch_trace env start_urls max_depth w) as Hinv.
  rewrite Htrace in Hinv.
  by apply (loop_trace_fold_fold env _ v1 n1 v2 n2 t2 t3 t1 ∅ Hinv).
Qed.

(** X17: a URL that ends in a download extension is never rendered:
    its unit sends at most one request (the download; the probe is
    skipped), does not call the renderer, does not sleep, and returns
    None, so that the fold neither marks the URL visited nor follows
    links from it. *)
Theorem crawl_url_download (url : str) (w : World) :
  has_download_extension url = true ->
  exists w',
    crawl_url env url w = (Ok None, w') /\
    length (List.filter is_get (since w w')) <= 1 /\
    List.filter is_render (since w w') = [] /\
    List.filter is_sleep (since w w') = [].
Proof.
  intros Hext.
  assert (Hruns : runs (within 1 0 0) no_exception (fun r => r = None)
                       (crawl_url env url)).
  { unfold crawl_url.
    apply (runs_bind_gen (within 0 0 0) (within 1 0 0) (within 1 0 0) _
             any_value).
    - apply runs_get_next_proxy; [intros; within_atom|intros; exact I].
    - intros proxy _.
      apply (runs_bind_gen (within 1 0 0) (within 0 0 0) (within 1 0 0) _
               (fun d => d = true)).
      + apply (runs_try_gen (within 1 0 0) (within 0 0 0) (within 1 0 0)
                 no_exception); [| |within_join 1 0 0 0 0 0|auto].
        * unfold is_downloadable. rewrite Hext.
          apply (runs_bind_gen (within 0 0 0) (within 1 0 0) (within 1 0 0) _
                   (fun d => d = true)).
          -- apply runs_ret; [within_atom|done].
          -- intros d ->.
             apply (runs_bind_gen (within 1 0 0) (within 0 0 0)
                      (within 1 0 0) _ any_value).
             ++ apply download_file_within.
             ++ intros _ _. apply runs_ret; [within_atom|done].
             ++ within_join 1 0 0 0 0 0.
             ++ auto.
          -- within_join 0 0 0 1 0 0.
          -- intros x. apply within_mono; lia.
        * by intros e [].
      + intros d ->. apply runs_ret; [within_atom|done].
      + within_join 1 0 0 0 0 0.
      + auto.
    - within_join 0 0 0 1 0 0.
    - intros x. apply within_mono; lia. }
  destruct (runs_since _ _ _ _ w Hruns) as [(Hg & Hr & Hs) Hres].
  destruct (crawl_url env url w) as [[r|e] w'] eqn:Hrun; cbn [fst snd] in *;
    [|destruct Hres].
  subst r. exists w'. split; [done|]. split; [exact Hg|].
  split; [by apply length_zero_iff_nil, Nat.le_0_r
         |by apply length_zero_iff_nil, Nat.le_0_r].
Qed.

(** X18: a page with markdown is saved in output/NAME.md, where NAME is
    the URL of the result with every character outside a-z, A-Z, 0-9, _
    and - turned into _: the file lies directly in output, and after the
    three filesystem calls it holds exactly the markdown, whatever it held
    before.  A page without markdown touches nothing. *)
Theorem save_markdown_file (r : CrawlResult) (w : World) :
  (r_markdown r = [] -> save_markdown env r w = (Ok tt, w)) /\
  (r_markdown r <> [] ->
   io_ok env (n_io w) = true -> io_ok env (1 + n_io w) = true ->
   io_ok env (2 + n_io w) = true ->
   let name := safe_filename (r_url r) in
   let file := py "output/" ++ name ++ py ".md" in
   exists w',
     save_markdown env r w = (Ok tt, w') /\
     since w w' = [EvMakedirs (py "output"); EvOpen file (py "w");
                   EvWrite file (r_markdown r)] /\
     files w' = <[file := r_markdown r]> (files w) /\
     mem "/" name = false).
Proof.
  split.
  - intros Hmd. unfold save_markdown. by rewrite Hmd.
  - intros Hmd H0 H1 H2. cbn [Nat.add] in H1, H2. cbv zeta.
    unfold save_markdown.
    rewrite (str_eqb_nil_false _ Hmd).
    unfold makedirs, open_write, write, bind, io.
    rewrite H0. cbn [n_io]. rewrite H1. cbn [n_io]. rewrite H2.
    eexists. split; [reflexivity|]. cbn [files trace]. split; [|split].
    + erewrite since_app; [reflexivity|]. cbn [trace].
      by rewrite <- !app_assoc.
    + rewrite lookup_insert_eq. cbn [default id app].
      by rewrite insert_insert_eq.
    + unfold safe_filename. clear. induction (r_url r) as [|c u IH]; [done|].
      cbn [map]. rewrite mem_cons, IH, orb_false_r.
      destruct (is_safe_char c) eqn:Hc; [|done].
      apply Ascii.eqb_neq. intros <-. by vm_compute in Hc.
Qed.

Lemma crawl_first_wave_trace (seeds vs : list str) (max_depth : nat)
    (w : World) :
  Forall2 (fun u v => normalize env u = Some v) seeds vs ->
  (forall v, v ∈ vs -> normalize env v = Some v) ->
  vs <> [] ->
  exists urls t,
    since w (snd (crawl_recursive_batch env seeds (Datatypes.S max_depth) w))
      = EvLog (LogDepth 1) :: EvWave urls :: t /\
    NoDup urls /\ (forall v, v ∈ urls <-> v ∈ vs).
Proof.
  intros Hvs Hfix Hne.
  set (current := list_to_set vs : gset str).
  remember (elements current) as urls eqn:Hurls. exists urls.
  set (TW := fun t : list Event => exists rest, t = EvWave urls :: rest).
  set (TF := fun t : list Event =>
               exists rest, t = EvLog (LogDepth 1) :: EvWave urls :: rest).
  assert (Hruns : runs TF any_value any_value
                    (crawl_recursive_batch env seeds (Datatypes.S max_depth))).
  { unfold crawl_recursive_batch.
    apply (runs_bind_ok (fun x => x = []) TF TF _ (fun l => l = vs)).
    { intros w0. exists []. rewrite (mapM_of_option_ok _ _ _ _ Hvs).
      cbn. by rewrite app_nil_r. }
    2: { by intros x y -> Hy. }
    intros l ->. fold current. cbn [crawl_loop].
    apply (runs_bind_ok (fun x => x = [EvLog (LogDepth 1)]) TW TF _
             any_value).
    { by apply runs_emit. }
    2: { intros x y -> [rest ->]. by exists rest. }
    intros _ _.
    apply (runs_bind_ok (fun x => x = []) TW TW _ (fun l => l = urls)).
    { intros w0. exists []. rewrite <- Hurls, select_urls_all.
      - cbn. by rewrite app_nil_r.
      - intros x Hx. apply Hfix. rewrite Hurls in Hx.
        apply elem_of_elements in Hx. by apply elem_of_list_to_set in Hx. }
    2: { by intros x y -> Hy. }
    intros l ->. destruct urls as [|u us].
    { symmetry in Hurls. apply elements_empty_inv in Hurls.
      destruct vs as [|v vs']; [done|].
      exfalso. apply (not_elem_of_empty (C:=gset str) v).
      rewrite <- (leibniz_equiv _ _ Hurls). subst current.
      apply elem_of_list_to_set, list_elem_of_here. }
    apply (runs_bind_ok (fun x => x = [EvWave (u :: us)]) (fun _ => True)
             TW _ any_value).
    { by apply runs_emit. }
    2: { intros x y -> _. by exists y. }
    intros _ _.
    apply (runs_bind (fun _ => True) _ any_value); [done| |intros results _].
    { apply quiet_grows, quiet_mapM. intros a. apply quiet_crawl_url. }
    apply (runs_bind (fun _ => True) _ any_value); [done| |intros base _].
    { apply quiet_grows, quiet_base_domain_of. }
    apply (runs_bind (fun _ => True) _ any_value); [done| |].
    { apply quiet_grows, quiet_fold_results. }
    intros [visited' next] _.
    apply (runs_bind (fun _ => True) _ any_value); [done| |intros _ _].
    { by apply runs_emit. }
    intros w0.
    destruct (crawl_loop_trace env seeds max_depth 1 visited' next w0)
      as (new & Hnew & _).
    exists new. split; [exact Hnew|]. split; [done|].
    by destruct (fst _). }
  destruct (runs_since _ _ _ _ w Hruns) as [[rest Hrest] _].
  exists rest. split; [exact Hrest|]. rewrite Hurls.
  split; [apply NoDup_elements|].
  intros v. rewrite elem_of_elements. subst current.
  by rewrite elem_of_list_to_set.
Qed.

(** X19: when every seed normalizes to a URL that normalize_url leaves
    as it is, the first depth has exactly one task for every distinct
    normalized seed: seeds that differ only in what normalize_url removes
    are fetched once. *)
Theorem crawl_first_wave (seeds vs : list str) (max_depth : nat) (w : World) :
  Forall2 (fun u v => normalize env u = Some v) seeds vs ->
  (forall v, v ∈ vs -> normalize env v = Some v) ->
  vs <> [] ->
  exists urls t,
    since w (snd (crawl_recursive_batch env seeds (Datatypes.S max_depth) w))
      = EvLog (LogDepth 1) :: EvWave urls :: t /\
    NoDup urls /\ (forall v, v ∈ urls <-> v ∈ vs).
Proof. apply crawl_first_wave_trace. Qed.

Lemma fetched_without_wave t : List.filter is_wave t = [] -> fetched t = [].
Proof.
  induction t as [|e t IH]; [done|]. cbn [List.filter].
  destruct e; cbn [is_wave]; try done; intros H; unfold fetched in *;
    cbn [flat_map]; by rewrite (IH H).
Qed.

Lemma singleton_list (v : str) l :
  NoDup l -> (forall x, x ∈ l <-> x ∈ [v]) -> l = [v].
Proof.
  intros Hnd Hl. destruct l as [|a [|b l]].
  - exfalso. apply (elem_of_nil v). apply Hl, list_elem_of_here.
  - f_equal. apply list_elem_of_singleton, Hl, list_elem_of_here.
  - exfalso. assert (a = v) as ->
      by apply list_elem_of_singleton, Hl, list_elem_of_here.
    assert (b = v) as ->.
    { apply list_elem_of_singleton, Hl, list_elem_of_further,
        list_elem_of_here. }
    apply NoDup_cons in Hnd as [Hnotin _]. apply Hnotin, list_elem_of_here.
Qed.

(** X22: the program as it is run, whatever the network answers: it
    creates one task in all, for https://www.royalchallengers.com (the
    seed without its trailing slash), sends at most two requests and
    calls the renderer at most MAX_RETRIES times. *)
Theorem main_single_task (w : World) :
  exists t,
    since w (snd (main env w)) = t /\
    fetched t = [py "https://www.royalchallengers.com"] /\
    length (List.filter is_get t) <= 2 /\
    length (List.filter is_render t) <= MAX_RETRIES.
Proof.
  eexists. split; [reflexivity|]. unfold main.
  destruct (crawl_first_wave_trace [py "https://www.royalchallengers.com/"]
              [py "https://www.royalchallengers.com"] 0 w)
    as (urls & rest & Ht & Hnd & Hmem).
  { repeat constructor. }
  { intros v Hv. apply list_elem_of_singleton in Hv as ->. reflexivity. }
  { discriminate. }
  apply singleton_list in Hmem as ->; [|done].
  destruct (runs_since _ _ _ _ w
              (crawl_recursive_batch_shape env
                 [py "https://www.royalchallengers.com/"] 1))
    as [(Hw & (Hg & Hr & _) & _) _].
  rewrite Ht in *. cbn [List.filter is_wave length] in Hw.
  assert (Hrest : fetched rest = []).
  { apply fetched_without_wave. apply length_zero_iff_nil. lia. }
  assert (Hf : fetched (EvLog (LogDepth 1)
                 :: EvWave [py "https://www.royalchallengers.com"] :: rest)
               = [py "https://www.royalchallengers.com"]).
  { change (fetched (_ :: _ :: rest))
      with ([py "https://www.royalchallengers.com"] ++ fetched rest).
    by rewrite Hrest. }
  rewrite Hf in *. split; [done|]. cbn [length] in Hg, Hr.
  split; [lia|unfold MAX_RETRIES in *; lia].
Qed.

End Edges.

Section Components.
Variable check : str -> bool.


Hypothesis check_lower : forall n, check n = true -> check (lower n) = true.


End Components.
(** * The last segment of a path and the params that urlparse cuts off *)

(** ** split_last *)

Lemma split_last_none c s : mem c s = false -> split_last c s = None.
Proof.
  induction s as [|x s IH]; [done|]. rewrite mem_cons. intros H.
  apply orb_false_iff in H as [Hx Hs]. cbn [split_last].
  by rewrite (IH Hs), Ascii.eqb_sym, Hx.
Qed.

Lemma split_last_none_inv c s : split_last c s = None -> mem c s = false.
Proof.
  induction s as [|x s IH]; [done|]. cbn [split_last].
  destruct (split_last c s) as [[a b]|]; [done|].
  destruct (Ascii.eqb x c) eqn:Hx; [done|]. intros _.
  by rewrite mem_cons, Ascii.eqb_sym, Hx, IH.
Qed.

Lemma split_last_intro c a t :
  mem c t = false -> split_last c (a ++ c :: t) = Some (a, c :: t).
Proof.
  intros Ht. induction a as [|x a IH]; cbn [app split_last].
  - by rewrite (split_last_none c t Ht), Ascii.eqb_refl.
  - by rewrite IH.
Qed.

(** ** The directory part and the last segment *)

Lemma seg_cases x :
  (mem "/" x = false /\ dir_part x = [] /\ last_segment x = x) \/
  (exists d t, x = d ++ "/" :: t /\ mem "/" t = false /\
               dir_part x = d ++ ["/"] /\ last_segment x = t).
Proof.
  unfold dir_part, last_segment.
  destruct (split_last "/" x) as [[d seg]|] eqn:H.
  - right. apply split_last_spec in H as (-> & t & -> & Ht). by exists d, t.
  - left. by apply split_last_none_inv in H.
Qed.

Lemma seg_intro d t :
  mem "/" t = false ->
  dir_part (d ++ "/" :: t) = d ++ ["/"] /\ last_segment (d ++ "/" :: t) = t.
Proof.
  intros Ht. unfold dir_part, last_segment.
  by rewrite (split_last_intro _ _ _ Ht).
Qed.

Lemma seg_none t :
  mem "/" t = false -> dir_part t = [] /\ last_segment t = t.
Proof.
  intros Ht. unfold dir_part, last_segment. by rewrite (split_last_none _ _ Ht).
Qed.

Lemma seg_decompose x : x = dir_part x ++ last_segment x.
Proof.
  destruct (seg_cases x) as [(_ & Hd & Hl)|(d & t & Hx & _ & Hd & Hl)];
    rewrite Hd, Hl; [done|].
  rewrite <- app_assoc. exact Hx.
Qed.

Lemma last_segment_no_slash x : mem "/" (last_segment x) = false.
Proof.
  destruct (seg_cases x) as [(H & _ & Hl)|(d & t & _ & H & _ & Hl)];
    by rewrite Hl.
Qed.

Lemma seg_app x y :
  mem "/" y = false ->
  dir_part (x ++ y) = dir_part x /\
  last_segment (x ++ y) = last_segment x ++ y.
Proof.
  intros Hy.
  destruct (seg_cases x) as [(Hx & Hd & Hl)|(d & t & Hx & Ht & Hd & Hl)];
    rewrite Hd, Hl.
  - apply seg_none. by rewrite mem_app, Hx.
  - rewrite Hx, <- app_assoc. cbn [app]. apply seg_intro.
    by rewrite mem_app, Ht.
Qed.

Lemma seg_cons_slash x :
  dir_part ("/" :: x) = "/" :: dir_part x /\
  last_segment ("/" :: x) = last_segment x.
Proof.
  destruct (seg_cases x) as [(Hx & Hd & Hl)|(d & t & Hx & Ht & Hd & Hl)];
    rewrite Hd, Hl.
  - by apply (seg_intro [] x).
  - rewrite Hx. by apply (seg_intro ("/" :: d) t).
Qed.

(* the directory part is empty or ends in a slash *)
Lemma dir_part_cases x :
  dir_part x = [] \/ exists d, dir_part x = d ++ ["/"].
Proof.
  destruct (seg_cases x) as [(_ & Hd & _)|(d & t & _ & _ & Hd & _)];
    [by left|right; by exists d].
Qed.

Lemma mem_last_segment c x : mem c x = false -> mem c (last_segment x) = false.
Proof.
  intros H. rewrite (seg_decompose x), mem_app in H.
  by apply orb_false_iff in H as [_ ?].
Qed.

(** ** The params *)

Lemma splitparams_spec x :
  mem ";" x = true ->
  splitparams x =
  match split_first ";" (last_segment x) with
  | Some (t1, t2) => (dir_part x ++ t1, t2)
  | None => (x, [])
  end.
Proof.
  intros Hx. unfold splitparams, dir_part, last_segment.
  destruct (split_last "/" x) as [[d seg]|] eqn:H.
  - apply split_last_spec in H as (_ & t & -> & _).
    change (drop 1 ("/" :: t)) with t. cbn [split_first].
    change (Ascii.eqb "/" ";") with false. cbn iota.
    destruct (split_first ";" t) as [[a b]|]; [|done].
    by rewrite <- app_assoc.
  - destruct (split_first ";" x) as [[a b]|] eqn:Hf; [done|].
    apply split_first_none_inv in Hf. congruence.
Qed.

Lemma split_params_spec s x :
  split_params s x =
  if in_list s uses_params then
    match split_first ";" (last_segment x) with
    | Some (t1, t2) => (dir_part x ++ t1, t2)
    | None => (x, [])
    end
  else (x, []).
Proof.
  unfold split_params. destruct (in_list s uses_params); [|done]. cbn [andb].
  destruct (mem ";" x) eqn:Hx; [by apply splitparams_spec|].
  by rewrite split_first_none by (by apply mem_last_segment).
Qed.

(* what split_params cuts off is what follows a ";" of the last segment *)
Lemma split_params_facts s x a b :
  split_params s x = (a, b) ->
  (x = a /\ b = [] \/ x = a ++ ";" :: b) /\
  mem "/" b = false /\
  (in_list s uses_params = false -> b = []).
Proof.
  rewrite split_params_spec. destruct (in_list s uses_params).
  - destruct (split_first ";" (last_segment x)) as [[t1 t2]|] eqn:Hf.
    + intros [= <- <-]. apply split_first_some in Hf as [Hseg _].
      pose proof (last_segment_no_slash x) as Hns. rewrite Hseg in Hns.
      rewrite mem_app, mem_cons in Hns.
      apply orb_false_iff in Hns as [_ Hns].
      apply orb_false_iff in Hns as [_ Hns].
      split; [right|by split].
      rewrite <- app_assoc, <- Hseg. apply seg_decompose.
    + intros [= <- <-]. by split; [left|].
  - intros [= <- <-]. by split; [left|].
Qed.

Lemma split_params_forallb (f : ascii -> bool) s x a b :
  split_params s x = (a, b) -> forallb f x = true ->
  forallb f a = true /\ forallb f b = true.
Proof.
  intros H Hx. apply split_params_facts in H as ([[-> ->]| ->] & _); [done|].
  rewrite forallb_app in Hx. apply andb_true_iff in Hx as [Ha Hb].
  cbn [forallb] in Hb. by apply andb_true_iff in Hb as [_ Hb].
Qed.

Lemma split_params_mem c s x a b :
  split_params s x = (a, b) -> mem c x = false ->
  mem c a = false /\ mem c b = false.
Proof.
  intros H Hx. apply split_params_facts in H as ([[-> ->]| ->] & _); [done|].
  rewrite mem_app, mem_cons in Hx. apply orb_false_iff in Hx as [Ha Hb].
  by apply orb_false_iff in Hb as [_ Hb].
Qed.

Lemma params_part_length b : length (params_part b) <= Datatypes.S (length b).
Proof. unfold params_part. destruct (str_eqb b []); cbn; lia. Qed.

(* the path and the params, as written, are no longer than what was cut *)
Lemma split_params_length s x a b :
  split_params s x = (a, b) ->
  length a + length (params_part b) <= length x.
Proof.
  intros H. apply split_params_facts in H as ([[-> ->]| ->] & _).
  - unfold params_part. rewrite str_eqb_refl. cbn [length]. lia.
  - pose proof (params_part_length b). rewrite length_app. cbn [length]. lia.
Qed.

Lemma mem_params_part c b :
  c <> ";" -> mem c (params_part b) = mem c b.
Proof.
  intros Hc. unfold params_part. destruct (str_eqb b []) eqn:Hb.
  - by apply str_eqb_nil_true in Hb as ->.
  - rewrite mem_cons. by apply Ascii.eqb_neq in Hc as ->.
Qed.

Lemma split_first_app_some c s t1 t2 tail :
  split_first c s = Some (t1, t2) ->
  split_first c (s ++ tail) = Some (t1, t2 ++ tail).
Proof.
  intros H. apply split_first_some in H as [-> Ht1].
  rewrite <- app_assoc. cbn [app]. by apply split_first_app.
Qed.

(* the params of a path followed by params: when the last segment of the
   path holds a ";", the cut is there *)
Lemma split_params_written s A b :
  mem "/" b = false -> (in_list s uses_params = false -> b = []) ->
  split_params s (A ++ params_part b) =
  if in_list s uses_params then
    match split_first ";" (last_segment A) with
    | Some (t1, t2) => (dir_part A ++ t1, t2 ++ params_part b)
    | None => (A, b)
    end
  else (A, b).
Proof.
  intros Hb Hs. rewrite split_params_spec.
  destruct (in_list s uses_params).
  - assert (Hpb : mem "/" (params_part b) = false)
      by (by rewrite mem_params_part).
    destruct (seg_app A (params_part b) Hpb) as [-> ->].
    destruct (split_first ";" (last_segment A)) as [[t1 t2]|] eqn:Hf.
    + by rewrite (split_first_app_some _ _ _ _ _ Hf).
    + apply split_first_none_inv in Hf.
      rewrite (split_first_app_notin _ _ _ Hf). unfold params_part.
      destruct (str_eqb b []) eqn:Hbn.
      * apply str_eqb_nil_true in Hbn as ->. cbn [split_first].
        by rewrite app_nil_r.
      * cbn [split_first]. rewrite Ascii.eqb_refl, app_nil_r.
        by rewrite <- seg_decompose.
  - rewrite (Hs eq_refl). unfold params_part. rewrite str_eqb_refl.
    by rewrite app_nil_r.
Qed.
(** * The theorems at concrete inputs *)

(* an event of a trace that is known in full *)
Ltac find_event :=
  apply list_elem_of_In; vm_compute;
  repeat (first [left; reflexivity | right]).

(** ** normalize_url *)






(** ** The classifier and the retry loop *)

(* the path of the URL ends in .pdf, and still the classifier sends a
   request, and here answers False *)
Lemma path_extension_is_probed :
  exists p,
    urlparse accept_all (py "http://h/a.pdf?x=1") = Some p /\
    endswith (py ".pdf") (path p) = true /\
    is_downloadable env_online (py "http://h/a.pdf?x=1") None world0
    = (Ok false,
       mkWorld [EvGet (py "http://h/a.pdf?x=1") None 10] 0 1 0 0 ∅).
Proof. eexists. repeat split; vm_compute; reflexivity. Qed.

Lemma is_downloadable_by_extension_witness :
  is_downloadable env_offline (py "http://h/Report.PDF") None world0
  = (Ok true, world0).
Proof.
  apply (is_downloadable_by_extension env_offline _ (py "http://h/report")
           (py ".pdf")); [|reflexivity].
  apply list_elem_of_here.
Defined.

Lemma fetch_with_retry_attempts_witness :
  (exists w',
     fetch_with_retry env_offline seed_a world0 = (Ok None, w') /\
     length (List.filter is_render (since world0 w')) = 5) /\
  (exists r w',
     fetch_with_retry env_third_try seed_a world0 = (Ok (Some r), w') /\
     List.filter is_render (since world0 w')
     = [EvRender seed_a None; EvRender seed_a None; EvRender seed_a None]).
Proof.
  split.
  - destruct (fetch_with_retry_attempts env_offline seed_a world0) as [Hfail _].
    destruct Hfail as (w' & Hrun & _ & _ & _ & Hlen); [reflexivity|].
    exists w'. split; [exact Hrun|exact Hlen].
  - destruct (fetch_with_retry_attempts env_third_try seed_a world0)
      as [_ Hok].
    destruct (Hok 2 (mkResult seed_a true (py "text") [] [])) as
      (w' & Hrun & _ & Hrenders & _).
    + unfold MAX_RETRIES. lia.
    + intros j Hj. destruct j as [|[|j]]; [reflexivity|reflexivity|lia].
    + reflexivity.
    + exists (mkResult seed_a true (py "text") [] []), w'.
      split; [exact Hrun|exact Hrenders].
Defined.

Lemma probe_failure_falls_through_witness :
  exists q, EvRender seed_a q ∈ since world0 (snd (crawl_url env_offline seed_a world0)).
Proof.
  destruct (probe_failure_falls_through env_offline seed_a world0)
    as (w1 & _ & _ & Hrender); [reflexivity|reflexivity|].
  exact Hrender.
Defined.

(** ** The downloader *)

Example download_file_streams_then_records :
  let w := snd (download_file env_online seed_pdf None (py "output/docs")
                              (py "links_map.txt") world0) in
  since world0 w
  = download_events seed_pdf None (py "output/docs") (py "links_map.txt")
                    (py "f.pdf") [py "data"] /\
  files w !! py "output/docs/f.pdf" = Some (py "data") /\
  files w !! py "links_map.txt" = Some (map_record seed_pdf (py "f.pdf")).
Proof. repeat split; vm_compute; reflexivity. Qed.

(** ** The loop *)

(* http://h/b never renders: its unit returns None, it is not entered
   into the visited set, and the link on http://h/a brings it back into
   the next depth, where it is fetched a second time *)
Lemma failed_url_is_fetched_again :
  let w := snd (crawl_recursive_batch env_two_pages [seed_a; seed_b] 3 world0) in
  length (List.filter (str_eqb seed_b) (fetched (trace w))) = 2 /\
  length (List.filter (fun e => match e with
                                | EvRender u _ => str_eqb u seed_b
                                | _ => false
                                end) (trace w)) = 10.
Proof. split; vm_compute; reflexivity. Qed.

Lemma visited_never_refetched_witness : seed_a ∉ [seed_b].
Proof.
  pose (T := since world0
               (snd (crawl_recursive_batch env_two_pages [seed_a; seed_b] 3
                                           world0))).
  apply (visited_never_refetched env_two_pages [seed_a; seed_b] 3 world0
           (take 35 T) (take 1 (drop 36 T)) (drop 38 T)
           {[seed_a]} {[seed_b]}).
  - vm_compute. reflexivity.
  - by apply elem_of_singleton.
Defined.

(* a URL whose retries are exhausted, and a URL that is downloaded, are
   processed in a wave and are not in the visited set afterwards *)
Lemma none_results_are_not_visited :
  (let r := crawl_recursive_batch env_offline [seed_a] 1 world0 in
   fst r = Ok ∅ /\ fetched (trace (snd r)) = [seed_a] /\
   length (List.filter is_render (trace (snd r))) = 5 /\
   EvFolded ∅ ∅ ∈ trace (snd r)) /\
  (let r := crawl_recursive_batch env_online [seed_pdf] 1 world0 in
   fst r = Ok ∅ /\ fetched (trace (snd r)) = [seed_pdf] /\
   files (snd r) !! py "links_map.txt"
   = Some (map_record seed_pdf (py "f.pdf")) /\
   EvFolded ∅ ∅ ∈ trace (snd r)).
Proof.
  split; cbv zeta; (repeat split; [vm_compute; reflexivity..|]).
  - find_event.
  - find_event.
Qed.

Lemma fold_results_visited_witness :
  fold_results env_offline (py "h") ∅ ∅
    [None; Some (mkResult seed_a false [] [] (py "timeout"))] world0
  = (Ok ({[seed_a]}, ∅),
     mkWorld [EvLog (LogError seed_a (py "timeout"))] 0 0 0 0 ∅).
Proof.
  destruct (fold_results_visited env_offline (py "h") ∅ ∅
              [Some (mkResult seed_a false [] [] (py "timeout"))] world0)
    as (_ & -> & _).
  destruct (fold_results_visited env_offline (py "h") ∅ ∅ [] world0)
    as (_ & _ & Hfailed).
  rewrite (Hfailed (mkResult seed_a false [] [] (py "timeout")) seed_a);
    [|reflexivity|vm_compute; reflexivity].
  vm_compute. reflexivity.
Defined.

Lemma frontier_within_domain_scope_witness :
  match fold_results env_online (py "h") ∅ ∅
          [Some (mkResult seed_a true (py "text") [py "https://other.test/x"]
                          [])] world0
  with
  | (Ok (_, nx), _) => nx = ∅
  | (Raised _, _) => False
  end.
Proof.
  destruct (fold_results env_online (py "h") ∅ ∅ _ world0)
    as [[[visited nx]|e] w'] eqn:Hrun; [|vm_compute in Hrun; discriminate Hrun].
  destruct (frontier_within_domain_scope env_online [seed_a] 1 world0)
    as (_ & Hoff & _).
  eapply Hoff; [|exact Hrun].
  intros r href n Hr _ Hhref Hn.
  apply list_elem_of_singleton in Hr. injection Hr as ->.
  cbn [r_links] in Hhref. apply list_elem_of_singleton in Hhref as ->.
  vm_compute in Hn. injection Hn as <-. vm_compute. discriminate.
Defined.

(* the seed links off the domain only: one depth, and the loop stops *)
Example off_domain_crawl_stops :
  let r := crawl_recursive_batch env_online [seed_a] 3 world0 in
  fst r = Ok {[seed_a]} /\ fetched (trace (snd r)) = [seed_a] /\
  EvFolded {[seed_a]} ∅ ∈ trace (snd r).
Proof.
  cbv zeta. repeat split; [vm_compute; reflexivity..|].
  find_event.
Qed.
(** * More theorems at concrete inputs *)

Lemma safe_filename_safe_witness :
  safe_filename (py "a-b_C9") = py "a-b_C9".
Proof.
  destruct (safe_filename_safe (py "a-b_C9")) as (_ & _ & _ & _ & Hfix).
  apply Hfix. reflexivity.
Defined.


Lemma load_proxies_lines_witness :
  load_proxies true (Some [py " 1.2.3.4:8080:user:secret "])
  = Ok [mkProxy (py "http://1.2.3.4:8080") (py "user") (py "secret")].
Proof.
  destruct (load_proxies_lines None [py " 1.2.3.4:8080:user:secret "])
    as (_ & Hiff & _).
  apply Hiff. vm_compute. reflexivity.
Defined.

Lemma get_next_proxy_choice_witness :
  exists p w',
    get_next_proxy env_proxied world0 = (Ok p, w') /\
    exists q, p = Some q /\ q ∈ proxies env_proxied.
Proof.
  destruct (get_next_proxy_choice env_proxied world0)
    as (p & w' & Hrun & _ & _ & _ & Hsome).
  exists p, w'. split; [exact Hrun|]. apply Hsome; [reflexivity|discriminate].
Defined.


Lemma is_downloadable_headers_witness :
  exists b,
    is_downloadable env_online seed_a None world0
    = (Ok b, mkWorld [EvGet seed_a None 10] 0 1 0 0 ∅) /\
    (b = true <->
     (exists pre post,
        lower (header (content_disposition
                         (html_response [ReadChunk (py "data")])))
        = pre ++ py "attachment" ++ post)
     \/ (exists mime pre post,
           mime ∈ DOWNLOAD_MIMES /\
           lower (header (content_type
                            (html_response [ReadChunk (py "data")])))
           = pre ++ mime ++ post)).
Proof.
  destruct (is_downloadable_headers env_online seed_a None world0) as [_ H].
  apply (H (html_response [ReadChunk (py "data")])); reflexivity.
Defined.

Lemma download_filename_from_path_witness :
  py "f.pdf" <> [] /\ mem "/" (py "f.pdf") = false /\
  path_join (py "output/docs") (py "f.pdf") = py "output/docs/" ++ py "f.pdf".
Proof.
  destruct (download_filename_from_path env_offline seed_pdf
              (mkResponse None None []) world0 world0 (py "f.pdf"))
    as (_ & Hne & Hslash & Hjoin & _); [reflexivity|reflexivity|].
  split; [exact Hne|]. split; [exact Hslash|exact Hjoin].
Defined.





Lemma visited_only_grows_witness :
  ({[seed_a]} : gset str) ⊆ {[seed_b]} ∪ {[seed_a]}.
Proof.
  pose (T := since world0
               (snd (crawl_recursive_batch env_chain [seed_a] 2 world0))).
  apply (visited_only_grows env_chain [seed_a] 2 world0
           (take 11 T) (take 11 (drop 12 T)) (drop 24 T)
           {[seed_a]} {[seed_b]} ({[seed_b]} ∪ {[seed_a]}) ∅).
  vm_compute. reflexivity.
Defined.

Lemma crawl_url_download_witness :
  exists w',
    crawl_url env_online seed_pdf world0 = (Ok None, w') /\
    length (List.filter is_get (since world0 w')) <= 1 /\
    List.filter is_render (since world0 w') = [] /\
    List.filter is_sleep (since world0 w') = [].
Proof.
  apply (crawl_url_download env_online seed_pdf world0). reflexivity.
Defined.

Lemma save_markdown_file_witness :
  exists w',
    save_markdown env_online (mkResult (py "http://h/a?x=1") true (py "text") [] [])
                  world0 = (Ok tt, w') /\
    files w' = {[ py "output/http___h_a_x_1.md" := py "text" ]}.
Proof.
  destruct (save_markdown_file env_online
              (mkResult (py "http://h/a?x=1") true (py "text") [] []) world0)
    as [_ Hsave].
  destruct Hsave as (w' & Hrun & _ & Hfiles & _);
    [discriminate|reflexivity|reflexivity|reflexivity|].
  exists w'. split; [exact Hrun|exact Hfiles].
Defined.

Lemma crawl_first_wave_witness :
  exists urls t,
    since world0
      (snd (crawl_recursive_batch env_offline [seed_a; py "http://H/a/#x"] 1
                                  world0))
      = EvLog (LogDepth 1) :: EvWave urls :: t /\
    NoDup urls /\ (forall v, v ∈ urls <-> v ∈ [seed_a; seed_a]).
Proof.
  apply (crawl_first_wave env_offline [seed_a; py "http://H/a/#x"]
           [seed_a; seed_a] 0 world0).
  - repeat constructor.
  - intros v Hv. apply elem_of_cons in Hv as [->|Hv]; [reflexivity|].
    apply list_elem_of_singleton in Hv as ->. reflexivity.
  - discriminate.
Defined.


